(** * ae-typescript-runner: the membership cache and the path matcher

    A shallow embedding of [src/extension.ts].  Two pieces of the extension
    carry logic of their own:

    - [fileIsListed], which answers whether a file belongs to the file set
      of a [tsconfig.json], backed by the two module-level maps [CACHE] and
      [CONFIG_CACHE];
    - [getMostSimilarPath], which picks among the emitted files the one
      whose trailing characters agree best with the source file.

    JavaScript strings are modelled by [string] (a sequence of code units),
    the two [Map]s by [gmap], promises awaited one after the other by a
    state-and-exception monad that also records the external operations it
    performs. *)

From Stdlib Require Import ZArith Ascii String List Lia Sorted.
From stdpp Require Import base decidable option list gmap strings.

Local Open Scope string_scope.
Local Open Scope Z_scope.

(** ** Completions

    A JavaScript call either returns a value or throws; an awaited promise
    either resolves or rejects.  [Thrown] lists the values that the modelled
    code can throw or reject with. *)

Inductive Thrown : Type :=
  | SystemError                 (* the rejection of [fs.stat] *)
  | Rejection (reason : string) (* [reject(reason)] with a string *)
  | TypeError.                  (* a property read on [undefined] *)

Inductive Outcome (A : Type) : Type :=
  | Return (v : A)
  | Throw (e : Thrown).

Arguments Return {A} v.
Arguments Throw {A} e.

(** The failure classes named by the specification, and the class each
    thrown value falls in.  A [TypeError] raised by the engine is none of
    them. *)

Inductive ErrorKind : Type :=
  | IOError
  | ToolUnavailable
  | InvalidArgument.

Definition error_kind (e : Thrown) : option ErrorKind :=
  match e with
  | SystemError => Some IOError
  | Rejection _ => Some ToolUnavailable
  | TypeError => None
  end.

Definition failure_kind {A} (o : Outcome A) : option ErrorKind :=
  match o with
  | Return _ => None
  | Throw e => error_kind e
  end.

(** ** JavaScript string primitives *)

Module JsString.

(** [s.substring(0, n)] for [n] already clamped at [0] from below. *)
Definition substring0 (s : string) (n : nat) : string :=
  String.substring 0 n s.

(** [s.slice(a, b)] for [0 <= a] and [0 <= b]. *)
Definition slice (s : string) (a b : Z) : string :=
  String.substring (Z.to_nat a) (Z.to_nat (b - a)) s.

(** [s[i]]: [None] stands for [undefined]. *)
Definition at_ (s : string) (i : nat) : option ascii := String.get i s.

Definition chars (s : string) : list ascii := list_ascii_of_string s.

End JsString.

(** ** The [path] module

    The source imports Node's [path] and uses [path.extname] and
    [path.dirname].  The module is an interface here; [NodePosix] below is
    Node's POSIX implementation of the two functions. *)

Record PathModule : Type := {
  path_extname : string -> string;
  path_dirname : string -> string;
}.

Module NodePosix.

Definition CHAR_FORWARD_SLASH : ascii := "/"%char.
Definition CHAR_DOT : ascii := "."%char.

(** The local variables of [extname]; [-1] is the "not seen" marker. *)
Record ExtState : Type := {
  startDot : Z;
  startPart : Z;
  end_ : Z;
  matchedSlash : bool;
  preDotState : Z;
}.

Definition ext_init : ExtState :=
  {| startDot := -1; startPart := 0; end_ := -1;
     matchedSlash := true; preDotState := 0 |}.

(** [for (let i = path.length - 1; i >= 0; --i)], entered with
    [n = i + 1]. *)
Fixpoint extname_loop (path : string) (n : nat) (st : ExtState) : ExtState :=
  match n with
  | O => st
  | S i =>
      let code := String.get i path in
      if decide (code = Some CHAR_FORWARD_SLASH) then
        if negb (matchedSlash st) then
          {| startDot := startDot st; startPart := Z.of_nat i + 1;
             end_ := end_ st; matchedSlash := matchedSlash st;
             preDotState := preDotState st |}
        else extname_loop path i st
      else
        let st1 :=
          if decide (end_ st = -1) then
            {| startDot := startDot st; startPart := startPart st;
               end_ := Z.of_nat i + 1; matchedSlash := false;
               preDotState := preDotState st |}
          else st in
        let st2 :=
          if decide (code = Some CHAR_DOT) then
            if decide (startDot st1 = -1) then
              {| startDot := Z.of_nat i; startPart := startPart st1;
                 end_ := end_ st1; matchedSlash := matchedSlash st1;
                 preDotState := preDotState st1 |}
            else if decide (preDotState st1 <> 1) then
              {| startDot := startDot st1; startPart := startPart st1;
                 end_ := end_ st1; matchedSlash := matchedSlash st1;
                 preDotState := 1 |}
            else st1
          else if decide (startDot st1 <> -1) then
            {| startDot := startDot st1; startPart := startPart st1;
               end_ := end_ st1; matchedSlash := matchedSlash st1;
               preDotState := -1 |}
          else st1 in
        extname_loop path i st2
  end.

Definition extname (path : string) : string :=
  let st := extname_loop path (String.length path) ext_init in
  if bool_decide (startDot st = -1)
     || bool_decide (end_ st = -1)
     || bool_decide (preDotState st = 0)
     || (bool_decide (preDotState st = 1)
         && bool_decide (startDot st = end_ st - 1)
         && bool_decide (startDot st = startPart st + 1))
  then ""
  else JsString.slice path (startDot st) (end_ st).

(** [for (let i = path.length - 1; i >= 1; --i)] of [dirname], entered
    with [n = i]; the result is the final value of [end]. *)
Fixpoint dirname_loop (path : string) (n : nat) (matched : bool) : Z :=
  match n with
  | O => -1
  | S i' =>
      if decide (String.get n path = Some CHAR_FORWARD_SLASH) then
        if negb matched then Z.of_nat n
        else dirname_loop path i' matched
      else dirname_loop path i' false
  end.

Definition dirname (path : string) : string :=
  if decide (String.length path = 0%nat) then "."
  else
    let hasRoot := bool_decide (String.get 0 path = Some CHAR_FORWARD_SLASH) in
    let end' := dirname_loop path (String.length path - 1) true in
    if decide (end' = -1) then (if hasRoot then "/" else ".")
    else if hasRoot && bool_decide (end' = 1) then "//"
    else JsString.slice path 0 end'.

Definition posix : PathModule :=
  {| path_extname := extname; path_dirname := dirname |}.

End NodePosix.

(** ** [Array.prototype.sort]

    The sort of an array by a comparison function is stable: elements that
    the function does not order keep their input order.  For a consistent
    comparison function the sorted array is determined by that requirement;
    it is computed here by insertion.  [cmp a b > 0] means that [a] goes
    after [b]. *)

Module JsArray.
Section Sort.
Context {A : Type} (comparefn : A -> A -> Z).

Fixpoint insert_sorted (x : A) (l : list A) : list A :=
  match l with
  | [] => [x]
  | y :: l' =>
      if 0 <? comparefn x y then y :: insert_sorted x l'
      else x :: y :: l'
  end.

Fixpoint sort (l : list A) : list A :=
  match l with
  | [] => []
  | x :: l' => insert_sorted x (sort l')
  end.
End Sort.
End JsArray.

(** ** [getMostSimilarPath] *)

Record Scored : Type := { path : string; score : nat }.

Section Matcher.
Variable P : PathModule.

(** [const removeExt = (p) => p.substring(0, p.length - path.extname(p).length)];
    a negative end index is clamped to [0] by [substring]. *)
Definition removeExt (p : string) : string :=
  JsString.substring0 p (String.length p - String.length (path_extname P p)).

(** The inner loop [for (let i = 0; i < len; ++i)], entered at index [i]
    with [fuel = len - i] iterations left. *)
Fixpoint score_loop (pBase _pBase : string) (fuel i score : nat) : nat :=
  match fuel with
  | O => score
  | S fuel' =>
      if decide (JsString.at_ pBase (String.length pBase - 1 - i)
                 = JsString.at_ _pBase (String.length _pBase - 1 - i))
      then score_loop pBase _pBase fuel' (S i) (S score)
      else score
  end.

Definition score_of (pBase _p : string) : nat :=
  let _pBase := removeExt _p in
  let len := Nat.min (String.length pBase) (String.length _pBase) in
  score_loop pBase _pBase len 0 0.

(** The outer loop: [arr.push({ path: _p, score })] for each candidate. *)
Definition scored (p : string) (ps : list string) : list Scored :=
  let pBase := removeExt p in
  map (fun _p => {| path := _p; score := score_of pBase _p |}) ps.

(** The comparison function handed to [arr.sort]. *)
Definition by_score_desc (lhs rhs : Scored) : Z :=
  if (score rhs <? score lhs)%nat then -1
  else if (score lhs <? score rhs)%nat then 1
  else 0.

Definition getMostSimilarPath (p : string) (ps : list string)
  : Outcome string :=
  let arr := JsArray.sort by_score_desc (scored p ps) in
  match arr with
  | [] => Throw TypeError
  | first :: _ => Return (path first)
  end.
End Matcher.

(** ** [fileIsListed] and the two module-level maps *)

(** The values kept by [CACHE]: [{ configPath: string; found: boolean; }]. *)
Record Entry : Type := { entry_configPath : string; entry_found : bool }.

#[global] Instance Entry_eq_dec : EqDecision Entry.
Proof. solve_decision. Defined.

(** [const CONFIG_CACHE = new Map<string, number>()] and
    [const CACHE = new Map<string, {...}>()].  A stored number is an
    [mtimeMs], a finite number on which [===] is equality of the numbers
    themselves; it is counted here in whole units of the clock. *)
Record Store : Type := {
  CACHE : gmap string Entry;
  CONFIG_CACHE : gmap string Z;
}.

Definition initial : Store := {| CACHE := ∅; CONFIG_CACHE := ∅ |}.

(** What lies outside the process: the file system answering [fs.stat]
    with an [mtimeMs] or failing, and the run of [tsc --noEmit --listFiles]
    in a directory, which [getListFiles] turns into the list of existing
    paths or into a rejection ([None]). *)
Record Env : Type := {
  stat_mtimeMs : string -> option Z;
  tsc_listFiles : string -> option (list string);
}.

(** The external operations a call performs, in order. *)
Inductive Event : Type :=
  | Stat (file : string)
  | ListFiles (cwd : string).

Definition is_ListFiles (e : Event) : bool :=
  match e with ListFiles _ => true | Stat _ => false end.

(** How often the listing was invoked along a trace. *)
Definition listings (tr : list Event) : nat :=
  length (List.filter is_ListFiles tr).

(** A finished call: how it completed, the maps it left, what it did. *)
Record Run (A : Type) : Type := {
  outcome : Outcome A;
  after : Store;
  trace : list Event;
}.

Arguments outcome {A} _.
Arguments after {A} _.
Arguments trace {A} _.

Definition M (A : Type) : Type := Store -> Run A.

#[global] Instance M_ret : MRet M := fun A v s =>
  {| outcome := Return v; after := s; trace := [] |}.

#[global] Instance M_bind : MBind M := fun A B f m s =>
  let r := m s in
  match outcome r with
  | Return v =>
      let r' := f v (after r) in
      {| outcome := outcome r'; after := after r';
         trace := trace r ++ trace r' |}
  | Throw e => {| outcome := Throw e; after := after r; trace := trace r |}
  end.

Definition CACHE_get (k : string) : M (option Entry) := fun s =>
  {| outcome := Return (CACHE s !! k); after := s; trace := [] |}.

Definition CACHE_set (k : string) (v : Entry) : M unit := fun s =>
  {| outcome := Return tt;
     after := {| CACHE := <[k := v]> (CACHE s);
                 CONFIG_CACHE := CONFIG_CACHE s |};
     trace := [] |}.

Definition CONFIG_CACHE_get (k : string) : M (option Z) := fun s =>
  {| outcome := Return (CONFIG_CACHE s !! k); after := s; trace := [] |}.

Definition CONFIG_CACHE_set (k : string) (v : Z) : M unit := fun s =>
  {| outcome := Return tt;
     after := {| CACHE := CACHE s;
                 CONFIG_CACHE := <[k := v]> (CONFIG_CACHE s) |};
     trace := [] |}.

Section Cache.
Variable P : PathModule.
Variable env : Env.

(** [await promisify(fs.stat)(configPath)], read at [.mtimeMs]. *)
Definition fs_stat (file : string) : M Z := fun s =>
  {| outcome := match stat_mtimeMs env file with
                | Some mtimeMs => Return mtimeMs
                | None => Throw SystemError
                end;
     after := s; trace := [Stat file] |}.

(** [await getListFiles(cwd)]: any error of the child process becomes
    [reject(`tsc isn't found`)]. *)
Definition getListFiles (cwd : string) : M (list string) := fun s =>
  {| outcome := match tsc_listFiles env cwd with
                | Some paths => Return paths
                | None => Throw (Rejection "tsc isn't found")
                end;
     after := s; trace := [ListFiles cwd] |}.

(** [for (const file of files)] with the local [found]. *)
Fixpoint warm (fileName configPath : string) (files : list string)
    (found : bool) : M bool :=
  match files with
  | [] => mret found
  | file :: files' =>
      if decide (file = fileName) then
        warm fileName configPath files' true
      else
        CACHE_set file {| entry_configPath := configPath; entry_found := true |};;
        warm fileName configPath files' found
  end.

(** Lines 56 to 69: what follows when the cached answer is not used. *)
Definition relist (fileName configPath : string) (mtimeMs : Z) : M bool :=
  CONFIG_CACHE_set configPath mtimeMs;;
  let rootPath := path_dirname P configPath in
  files ← getListFiles rootPath;
  found ← warm fileName configPath files false;
  CACHE_set fileName {| entry_configPath := configPath; entry_found := found |};;
  mret found.

Definition fileIsListed (fileName configPath : string) : M bool :=
  mtimeMs ← fs_stat configPath;
  cache ← CACHE_get fileName;
  match cache with
  | Some c =>
      if decide (entry_configPath c = configPath) then
        config_cache ← CONFIG_CACHE_get configPath;
        if decide (config_cache = Some mtimeMs) then mret (entry_found c)
        else relist fileName configPath mtimeMs
      else relist fileName configPath mtimeMs
  | None => relist fileName configPath mtimeMs
  end.
End Cache.

(** ** Vocabulary of the statements *)

(** The cached answer for [fileName] may be used: [CACHE] has an entry for
    the file that names [configPath], and [CONFIG_CACHE] holds for
    [configPath] exactly the modification time just read. *)
Definition cache_hit (s : Store) (fileName configPath : string) (mtimeMs : Z)
  : Prop :=
  (exists c, CACHE s !! fileName = Some c /\ entry_configPath c = configPath)
  /\ CONFIG_CACHE s !! configPath = Some mtimeMs.

#[global] Instance cache_hit_dec s fileName configPath mtimeMs :
  Decision (cache_hit s fileName configPath mtimeMs).
Proof.
  unfold cache_hit.
  destruct (CACHE s !! fileName) as [c|].
  - destruct (decide (entry_configPath c = configPath)) as [Hc|Hc].
    + destruct (decide (CONFIG_CACHE s !! configPath = Some mtimeMs)) as [Ht|Ht].
      * left. split; [now exists c | exact Ht].
      * right. now intros [_ ?].
    + right. intros [[c' [[= <-] ?]] _]. done.
  - right. intros [[c' [? _]] _]. done.
Defined.

(** The maps as lines 56 to 68 leave them after a listing [files]. *)
Definition relisted (fileName configPath : string) (s : Store) (mtimeMs : Z)
    (files : list string) : Store :=
  let s1 := {| CACHE := CACHE s;
               CONFIG_CACHE := <[configPath := mtimeMs]> (CONFIG_CACHE s) |} in
  let r := warm fileName configPath files false s1 in
  {| CACHE := <[fileName := {| entry_configPath := configPath;
                               entry_found := bool_decide (fileName ∈ files) |}]>
                (CACHE (after r));
     CONFIG_CACHE := CONFIG_CACHE (after r) |}.

(** The length of the longest common prefix of two lists. *)
Fixpoint common_prefix_length {A} `{EqDecision A} (l1 l2 : list A) : nat :=
  match l1, l2 with
  | x :: l1', y :: l2' =>
      if decide (x = y) then S (common_prefix_length l1' l2') else O
  | _, _ => O
  end.

(** The suffix-alignment score as the specification words it: walk both
    strings from their last character backward and count the matching
    characters up to the first mismatch. *)
Definition suffix_alignment (a b : string) : nat :=
  common_prefix_length (reverse (JsString.chars a)) (reverse (JsString.chars b)).

(** The path without its extension, as the specification words it: [p]
    short of the trailing characters that make up [path.extname(p)]. *)
Definition without_extension (P : PathModule) (p : string) : string :=
  string_of_list_ascii
    (take (String.length p - String.length (path_extname P p))
          (JsString.chars p)).

(** The score of a candidate against a reference path: the suffix
    alignment of the two paths without their extensions. *)
Definition alignment_score (P : PathModule) (reference candidate : string)
  : nat :=
  suffix_alignment (without_extension P reference)
                   (without_extension P candidate).

(** A sequence of calls made one after the other, each against the outside
    world as it is at that moment. *)
Record Call : Type := {
  call_env : Env;
  call_fileName : string;
  call_configPath : string;
}.

Definition run_call (P : PathModule) (s : Store) (c : Call) : Store :=
  after (fileIsListed P (call_env c) (call_fileName c) (call_configPath c) s).

Definition run_calls (P : PathModule) (calls : list Call) (s : Store) : Store :=
  fold_left (run_call P) calls s.

(** The paths that the calls asked about. *)
Definition queried (calls : list Call) : list string :=
  map call_fileName calls.

(** The contents of [CACHE] that can be observed once [calls] have been
    made from the initial state: between calls, and while a further call
    runs its loop over the files listed so far. *)
Inductive observed (P : PathModule) (calls : list Call)
  : gmap string Entry -> Prop :=
  | observed_between :
      observed P calls (CACHE (run_calls P calls initial))
  | observed_in_loop fileName configPath mtimeMs files found :
      observed P calls
        (CACHE (after (warm fileName configPath files found
           {| CACHE := CACHE (run_calls P calls initial);
              CONFIG_CACHE := <[configPath := mtimeMs]>
                                (CONFIG_CACHE (run_calls P calls initial)) |}))).

(** Sample paths and worlds on which the statements below are exercised:
    a project rooted at [/p] whose [tsconfig.json] has modification time
    [mtimeMs] and whose listing is [files] ([None]: [tsc] cannot be run). *)
Module Sample.
Definition tsconfig : string := "/p/tsconfig.json".
Definition A : string := "/p/src/a.ts".
Definition B : string := "/p/src/b.ts".
Definition D : string := "/p/src/d.ts".

Definition world (mtimeMs : Z) (files : option (list string)) : Env :=
  {| stat_mtimeMs := fun file =>
       if decide (file = tsconfig) then Some mtimeMs else None;
     tsc_listFiles := fun cwd =>
       if decide (cwd = "/p") then files else None |}.

(** [A] was found listed when [tsconfig] had modification time [1]. *)
Definition listed_at_1 : Store :=
  {| CACHE := {[ A := {| entry_configPath := tsconfig; entry_found := true |} ]};
     CONFIG_CACHE := {[ tsconfig := 1 ]} |}.
End Sample.

(** ** More of JavaScript's strings

    The operations used by the parsers of [tsc]'s and PowerShell's output
    and by the command handler.  A code unit is an [ascii]; the tests and
    mappings below are those of JavaScript on the code units [0] to
    [255]. *)

Module JsText.

Definition LF : ascii := "010"%char.
Definition CR : ascii := "013"%char.
Definition SPACE : ascii := " "%char.
Definition QUOTE : ascii := "034"%char.

(** White space and line terminators: what [trim] strips and [\s]
    matches (TAB, LF, VT, FF, CR, space, no-break space). *)
Definition is_space (c : ascii) : bool :=
  let n := nat_of_ascii c in
  ((9 <=? n) && (n <=? 13) || (n =? 32) || (n =? 160))%nat.

Fixpoint trimStart (s : string) : string :=
  match s with
  | EmptyString => EmptyString
  | String c s' => if is_space c then trimStart s' else s
  end.

Fixpoint trimEnd (s : string) : string :=
  match s with
  | EmptyString => EmptyString
  | String c s' =>
      match trimEnd s' with
      | EmptyString => if is_space c then EmptyString else String c EmptyString
      | t => String c t
      end
  end.

(** [s.trim()] *)
Definition trim (s : string) : string := trimEnd (trimStart s).

(** [/^\s+$/.test(s)] *)
Definition all_space (s : string) : bool :=
  match s with
  | EmptyString => false
  | _ => forallb is_space (list_ascii_of_string s)
  end.

(** [s.split(d)] for a separator [d] of one code unit. *)
Fixpoint split (d : ascii) (s : string) : list string :=
  match s with
  | EmptyString => [EmptyString]
  | String c s' =>
      if decide (c = d) then EmptyString :: split d s'
      else match split d s' with
           | piece :: pieces => String c piece :: pieces
           | [] => [String c EmptyString]
           end
  end.

(** [s.split(/\r\n|\r|\n/)]: at a [CR] the alternative [\r\n] is tried
    first. *)
Fixpoint split_lines (s : string) : list string :=
  match s with
  | EmptyString => [EmptyString]
  | String c s' =>
      if decide (c = CR) then
        match s' with
        | String c' s'' =>
            if decide (c' = LF) then EmptyString :: split_lines s''
            else EmptyString :: split_lines s'
        | EmptyString => EmptyString :: split_lines s'
        end
      else if decide (c = LF) then EmptyString :: split_lines s'
      else match split_lines s' with
           | piece :: pieces => String c piece :: pieces
           | [] => [String c EmptyString]
           end
  end.

(** [s.replace(/x/g, y)] for single code units [x] and [y]. *)
Fixpoint replace_all (x y : ascii) (s : string) : string :=
  match s with
  | EmptyString => EmptyString
  | String c s' =>
      String (if decide (c = x) then y else c) (replace_all x y s')
  end.

(** [s.indexOf(p) === 0] *)
Definition starts_with (p s : string) : bool := String.prefix p s.

(** [s.substring(n)] *)
Definition substring_from (n : nat) (s : string) : string :=
  String.substring n (String.length s - n) s.

(** [s.indexOf(c) === -1] *)
Definition lacks (c : ascii) (s : string) : bool :=
  forallb (fun c' => negb (bool_decide (c' = c))) (list_ascii_of_string s).

(** [toLowerCase] on one code unit: [A]-[Z] and the capital letters of
    Latin-1 ([À]-[Þ] without the multiplication sign). *)
Definition lower (c : ascii) : ascii :=
  let n := nat_of_ascii c in
  if ((65 <=? n) && (n <=? 90)
      || (192 <=? n) && (n <=? 222) && negb (n =? 215))%nat
  then ascii_of_nat (n + 32) else c.

Fixpoint toLowerCase (s : string) : string :=
  match s with
  | EmptyString => EmptyString
  | String c s' => String (lower c) (toLowerCase s')
  end.

(** The letters a pattern letter matches under the [i] flag: itself in
    either case, and no code unit beyond ASCII. *)
Definition lower_ascii (c : ascii) : ascii :=
  let n := nat_of_ascii c in
  if ((65 <=? n) && (n <=? 90))%nat then ascii_of_nat (n + 32) else c.

Fixpoint ends_with_ci (suffix_ s : string) : bool :=
  match s with
  | EmptyString => bool_decide (suffix_ = EmptyString)
  | String c s' =>
      bool_decide (String.length s = String.length suffix_
                   /\ map lower_ascii (list_ascii_of_string s)
                      = list_ascii_of_string suffix_)
      || ends_with_ci suffix_ s'
  end.

End JsText.

(** A string that is empty or begins with something else than white
    space. *)
Definition no_lead (s : string) : Prop :=
  match s with
  | EmptyString => True
  | String c _ => JsText.is_space c = false
  end.

(** The text made of the given lines, each followed by [pad] and a line
    feed; [pad] is empty, or a carriage return where lines end in CR LF. *)
Definition printed (pad : string) (ls : list string) : string :=
  fold_right (fun l rest => l ++ pad ++ String JsText.LF rest) "" ls.

(** ** The output of [tsc]: [getListFiles] and [compileWithEmittedFiles] *)

(** [path.sep] is one of two characters. *)
Inductive PathSep : Type := SepSlash | SepBackslash.

Definition sep_char (sep : PathSep) : ascii :=
  match sep with SepSlash => "/"%char | SepBackslash => "\"%char end.

(** A finished child process as its callback sees it: what it printed, and
    which paths [fs.existsSync] finds at that moment. *)
Record Finished : Type := {
  stdout : string;
  existsSync : string -> bool;
}.

Section TscOutput.
Variable sep : PathSep.

(** [if ('/' === path.sep) return text; return text.replace(/\//g, path.sep)] *)
Definition to_sep (text : string) : string :=
  if decide ("/"%char = sep_char sep) then text
  else JsText.replace_all "/" (sep_char sep) text.

(** The test handed to [filter] in both parsers. *)
Definition kept (done : Finished) (text : string) : bool :=
  if JsText.all_space text then false else existsSync done text.

(** What [getListFiles] resolves with, lines 21 to 34. *)
Definition listFiles_paths (done : Finished) : list string :=
  List.filter (kept done)
    (map (fun text => to_sep (JsText.trim text))
         (JsText.split JsText.LF (stdout done))).

(** The callback of [reduce], lines 80 to 87. *)
Definition push_TSFILE (filtered : list string) (text : string) : list string :=
  let text := JsText.trim text in
  if JsText.starts_with "TSFILE:" text then
    filtered ++ [JsText.trim (JsText.substring_from (String.length "TSFILE:") text)]
  else filtered.

(** What [compileWithEmittedFiles] resolves with, lines 80 to 99. *)
Definition emittedFiles_paths (done : Finished) : list string :=
  List.filter (kept done)
    (map to_sep
         (fold_left push_TSFILE (JsText.split JsText.LF (stdout done)) [])).
End TscOutput.

(** ** Finding After Effects and running a script *)

(** The PowerShell process of [findAePathWin32]: it fails to start
    (['error']) or exits having printed [output]. *)
Inductive Spawned : Type :=
  | SpawnError
  | Exited (output : string).

(** The values a command can throw: those of [fileIsListed] and of
    [getMostSimilarPath], an [Error] made with [new Error(message)], and an
    error object handed over by a library. *)
Inductive Raised : Type :=
  | Inner (e : Thrown)
  | ErrorObject (message : string)
  | Foreign.

Inductive Completion (A : Type) : Type :=
  | Done (v : A)
  | Raise (e : Raised).

Arguments Done {A} v.
Arguments Raise {A} e.

(** The code units at which [/\r\n|\r|\n/] splits. *)
Definition is_terminator (c : ascii) : bool :=
  bool_decide (c = JsText.CR) || bool_decide (c = JsText.LF).

(** The handler of ['exit'], lines 148 to 158. *)
Definition first_AfterFX (output : string) : Completion string :=
  let aePaths :=
    List.filter (fun aePath => negb (bool_decide (aePath = "")))
                (JsText.split_lines output) in
  match aePaths with
  | aePath :: _ => Done aePath
  | [] => Raise (Inner (Rejection "Please launch After Effects."))
  end.

Definition findAePathWin32_settles (ps : Spawned) : Completion string :=
  match ps with
  | Exited output => first_AfterFX output
  | SpawnError => Raise Foreign
  end.

(** The command line built by [runScript]. *)
Definition runScript_command (aePath filePath : string) : string :=
  let aePath :=
    if JsText.lacks JsText.SPACE aePath then aePath
    else String JsText.QUOTE aePath ++ String JsText.QUOTE "" in
  aePath ++ " -r " ++ filePath.

(** ** The command [ae-typescript-runner.runAeTypeScript] *)

(** What [tsconfig.find] settles with. *)
Inductive Found : Type :=
  | NoConfig
  | ConfigAt (configPath : string)
  | FindFailed.

(** Everything the command asks of its surroundings. *)
Record Host : Type := {
  activeTextEditor : option string;  (* [editor.document.fileName] *)
  process_platform : string;
  path_sep : PathSep;
  powershell : Spawned;
  tsconfig_find : string -> Found;
  fs_stat_mtimeMs : string -> option Z;
  child_process_exec : string -> string -> option Finished;  (* command, [cwd] *)
}.

(** What the command does, in order. *)
Inductive Action : Type :=
  | External (e : Event)
  | LookupAfterFX
  | FindConfig (dir : string)
  | Compile (cwd : string)
  | Exec (command : string)
  | ShowWarning (e : Raised).

Record Ran (A : Type) : Type := {
  completion : Completion A;
  store : Store;
  actions : list Action;
}.

Arguments completion {A} _.
Arguments store {A} _.
Arguments actions {A} _.

Definition Cmd (A : Type) : Type := Store -> Ran A.

Definition cmd_ret {A} (v : A) : Cmd A := fun s =>
  {| completion := Done v; store := s; actions := [] |}.

Definition cmd_raise {A} (e : Raised) : Cmd A := fun s =>
  {| completion := Raise e; store := s; actions := [] |}.

Definition cmd_bind {A B} (m : Cmd A) (f : A -> Cmd B) : Cmd B := fun s =>
  let r := m s in
  match completion r with
  | Done v =>
      let r' := f v (store r) in
      {| completion := completion r'; store := store r';
         actions := actions r ++ actions r' |}
  | Raise e =>
      {| completion := Raise e; store := store r; actions := actions r |}
  end.

(** An external operation: it is recorded and settles as given. *)
Definition perform {A} (a : Action) (c : Completion A) : Cmd A := fun s =>
  {| completion := c; store := s; actions := [a] |}.

(** A call into the cache: its external operations are the command's. *)
Definition lift {A} (m : M A) : Cmd A := fun s =>
  let r := m s in
  {| completion := match outcome r with
                   | Return v => Done v
                   | Throw e => Raise (Inner e)
                   end;
     store := after r;
     actions := map External (trace r) |}.

Definition of_outcome {A} (o : Outcome A) : Cmd A :=
  match o with
  | Return v => cmd_ret v
  | Throw e => cmd_raise (Inner e)
  end.

(** [!configPath] for what [tsconfig.find] resolved with: [undefined] and
    the empty string are falsy. *)
Definition falsy (found : Found) : bool :=
  match found with
  | ConfigAt configPath => bool_decide (configPath = "")
  | _ => true
  end.

Definition config_string (found : Found) : string :=
  match found with
  | ConfigAt configPath => configPath
  | _ => ""
  end.

(** [/\.(jsx|js)$/i.test(fileName)] *)
Definition is_js (fileName : string) : bool :=
  JsText.ends_with_ci ".jsx" fileName || JsText.ends_with_ci ".js" fileName.

Section Command.
Variable P : PathModule.
Variable host : Host.

Notation "x <~ m ;; k" := (cmd_bind m (fun x => k))
  (at level 100, m at next level, right associativity).

(** The outside world of [fileIsListed] under this host. *)
Definition host_env : Env :=
  {| stat_mtimeMs := fs_stat_mtimeMs host;
     tsc_listFiles := fun cwd =>
       match child_process_exec host "tsc --noEmit --listFiles" cwd with
       | Some done => Some (listFiles_paths (path_sep host) done)
       | None => None
       end |}.

Definition findConfig (fileName : string) : Cmd Found :=
  let dirName := path_dirname P fileName in
  perform (FindConfig dirName)
    (match tsconfig_find host dirName with
     | FindFailed => Raise Foreign
     | found => Done found
     end).

Definition compileWithEmittedFiles (cwd : string) : Cmd (list string) :=
  perform (Compile cwd)
    (match child_process_exec host "tsc --listEmittedFiles" cwd with
     | Some done => Done (emittedFiles_paths (path_sep host) done)
     | None => Raise Foreign
     end).

Definition findAePath : Cmd string :=
  if decide (process_platform host = "win32") then
    perform LookupAfterFX (findAePathWin32_settles (powershell host))
  else cmd_raise (ErrorObject (process_platform host ++ " isn't supported")).

Definition runScript (aePath filePath : string) : Cmd unit :=
  perform (Exec (runScript_command aePath filePath)) (Done tt).

(** The body of [try], lines 190 to 233. *)
Definition command_try : Cmd unit :=
  match activeTextEditor host with
  | None => cmd_ret tt
  | Some fileName =>
      aePath <~ findAePath;;
      let fileExt := JsText.toLowerCase (path_extname P fileName) in
      if decide (fileExt = ".jsxbin") then runScript aePath fileName
      else if bool_decide (fileExt ∈ [".js"; ".jsx"; ".ts"; ".tsx"]) then
        configPath <~ findConfig fileName;;
        if falsy configPath then
          if is_js fileName then runScript aePath fileName
          else cmd_raise (ErrorObject "Unable to find tsconfig.json")
        else
          let configPath := config_string configPath in
          found <~ lift (fileIsListed P host_env fileName configPath);;
          if negb found then
            if is_js fileName then runScript aePath fileName
            else cmd_ret tt
          else
            let rootPath := path_dirname P configPath in
            compiledFiles <~ compileWithEmittedFiles rootPath;;
            match compiledFiles with
            | [] => cmd_ret tt
            | _ =>
                target <~
                  (match compiledFiles with
                   | [only] => cmd_ret only
                   | _ => of_outcome (getMostSimilarPath P fileName compiledFiles)
                   end);;
                runScript aePath target
            end
      else cmd_ret tt
  end.

(** The handler: [catch (e) { vscode.window.showWarningMessage(e); }]. *)
Definition command : Cmd unit := fun s =>
  let r := command_try s in
  match completion r with
  | Done _ => r
  | Raise e =>
      {| completion := Done tt; store := store r;
         actions := actions r ++ [ShowWarning e] |}
  end.
End Command.

(** What the user gets to see of a command: a script handed to After
    Effects, or a warning. *)
Definition is_effect (a : Action) : bool :=
  match a with
  | Exec _ | ShowWarning _ => true
  | _ => false
  end.

(** A Windows host on which After Effects runs from a path with a space,
    [/p/tsconfig.json] lists [/p/src/a.ts], and compiling [/p] emits
    [/p/out/a.js] and [/p/out/b.js]. *)
Module SampleHost.
Import JsText.

Definition aePath : string := "C:\Program Files\AfterFX.exe".

Definition on_disk (file : string) : bool :=
  bool_decide (file ∈ ["/p/src/a.ts"; "/p/out/a.js"; "/p/out/b.js"]).

Definition editing (fileName : string) : Host :=
  {| activeTextEditor := Some fileName;
     process_platform := "win32";
     path_sep := SepSlash;
     powershell := Exited (aePath ++ String CR (String LF ""));
     tsconfig_find := fun dir =>
       if String.prefix "/p" dir then ConfigAt "/p/tsconfig.json" else NoConfig;
     fs_stat_mtimeMs := fun file =>
       if decide (file = "/p/tsconfig.json") then Some 7 else None;
     child_process_exec := fun command cwd =>
       if decide (cwd = "/p") then
         if decide (command = "tsc --noEmit --listFiles") then
           Some {| stdout := printed "" ["/usr/lib/lib.d.ts"; "/p/src/a.ts"];
                   existsSync := on_disk |}
         else
           Some {| stdout := printed "" ["TSFILE: /p/out/b.js"; "TSFILE: /p/out/a.js"];
                   existsSync := on_disk |}
       else None |}.

(** The same host while After Effects is not running. *)
Definition without_AfterFX (fileName : string) : Host :=
  {| activeTextEditor := Some fileName;
     process_platform := "win32";
     path_sep := SepSlash;
     powershell := Exited "";
     tsconfig_find := tsconfig_find (editing fileName);
     fs_stat_mtimeMs := fs_stat_mtimeMs (editing fileName);
     child_process_exec := child_process_exec (editing fileName) |}.
End SampleHost.

(** * Properties *)

(** ** The monad, step by step *)

Lemma bind_return {A B} (m : M A) (f : A -> M B) (s : Store) (v : A) :
  outcome (m s) = Return v ->
  (m ≫= f) s =
    {| outcome := outcome (f v (after (m s)));
       after := after (f v (after (m s)));
       trace := trace (m s) ++ trace (f v (after (m s))) |}.
Proof. intros H. unfold mbind, M_bind. cbn. now rewrite H. Qed.

Lemma bind_throw {A B} (m : M A) (f : A -> M B) (s : Store) (e : Thrown) :
  outcome (m s) = Throw e ->
  (m ≫= f) s =
    {| outcome := Throw e; after := after (m s); trace := trace (m s) |}.
Proof. intros H. unfold mbind, M_bind. cbn. now rewrite H. Qed.

(** ** The warming loop *)

Section WarmFacts.
Variables fileName configPath : string.

Let member : Entry := {| entry_configPath := configPath; entry_found := true |}.

Lemma warm_outcome files fnd s :
  outcome (warm fileName configPath files fnd s)
  = Return (fnd || bool_decide (fileName ∈ files)).
Proof.
  revert fnd s. induction files as [|file files IH]; intros fnd s; cbn.
  - now rewrite orb_false_r.
  - destruct (decide (file = fileName)) as [->|Hne].
    + rewrite IH. cbn. f_equal. symmetry. apply orb_true_iff. right.
      apply bool_decide_eq_true_2. left.
    + rewrite bind_return with (v := tt) by reflexivity. cbn.
      rewrite IH. f_equal. f_equal.
      apply bool_decide_ext. rewrite elem_of_cons.
      split; [now right | intros [E|E]; [congruence | exact E]].
Qed.

Lemma warm_trace files fnd s :
  trace (warm fileName configPath files fnd s) = [].
Proof.
  revert fnd s. induction files as [|file files IH]; intros fnd s; cbn.
  - reflexivity.
  - destruct (decide (file = fileName)); [apply IH|].
    rewrite bind_return with (v := tt) by reflexivity. cbn. apply IH.
Qed.

Lemma warm_CONFIG_CACHE files fnd s :
  CONFIG_CACHE (after (warm fileName configPath files fnd s))
  = CONFIG_CACHE s.
Proof.
  revert fnd s. induction files as [|file files IH]; intros fnd s; cbn.
  - reflexivity.
  - destruct (decide (file = fileName)); [apply IH|].
    rewrite bind_return with (v := tt) by reflexivity. cbn. now rewrite IH.
Qed.

(** A key that is not listed, or is the queried file, keeps what it had ... *)
Lemma warm_unlisted files fnd s k :
  (k ∉ files \/ k = fileName) ->
  CACHE (after (warm fileName configPath files fnd s)) !! k = CACHE s !! k.
Proof.
  revert fnd s. induction files as [|file files IH]; intros fnd s Hk.
  - reflexivity.
  - assert (Hk' : k ∉ files \/ k = fileName).
    { destruct Hk as [Hk|Hk]; [|now right].
      left. now apply not_elem_of_cons in Hk. }
    cbn. destruct (decide (file = fileName)) as [->|Hf]; [now apply IH|].
    rewrite bind_return with (v := tt) by reflexivity. cbn.
    rewrite IH by done. cbn. apply lookup_insert_ne.
    destruct Hk as [Hk| ->]; [|done].
    apply not_elem_of_cons in Hk as [Hk _]. congruence.
Qed.

(** ... and a listed path other than the queried one ends up a member. *)
Lemma warm_listed files fnd s k :
  k ∈ files -> k <> fileName ->
  CACHE (after (warm fileName configPath files fnd s)) !! k = Some member.
Proof.
  revert fnd s. induction files as [|file files IH]; intros fnd s Hin Hne.
  - inversion Hin.
  - cbn. destruct (decide (file = fileName)) as [->|Hf].
    + apply IH; [|done]. apply elem_of_cons in Hin as [?|?]; congruence.
    + rewrite bind_return with (v := tt) by reflexivity. cbn.
      destruct (decide (k ∈ files)) as [Hk|Hk]; [now apply IH|].
      apply elem_of_cons in Hin as [->|?]; [|done].
      rewrite warm_unlisted by now left. cbn. apply lookup_insert_eq.
Qed.

(** The loop never stores an entry with [found: false]. *)
Lemma warm_non_member files fnd s k c :
  CACHE (after (warm fileName configPath files fnd s)) !! k = Some c ->
  entry_found c = false ->
  CACHE s !! k = Some c.
Proof.
  intros Hk Hc.
  destruct (decide (k ∈ files /\ k <> fileName)) as [[Hin Hne]|Hn].
  - rewrite warm_listed in Hk by done. injection Hk as <-. discriminate.
  - rewrite warm_unlisted in Hk; [done|].
    destruct (decide (k = fileName)); [now right|].
    left. naive_solver.
Qed.
End WarmFacts.

(** ** One call of [fileIsListed], path by path *)

Section CallFacts.
Variable P : PathModule.
Variable env : Env.
Variables fileName configPath : string.

Let rootPath : string := path_dirname P configPath.

Lemma relist_listed s mtimeMs files :
  tsc_listFiles env rootPath = Some files ->
  relist P env fileName configPath mtimeMs s =
    {| outcome := Return (bool_decide (fileName ∈ files));
       after := relisted fileName configPath s mtimeMs files;
       trace := [ListFiles rootPath] |}.
Proof.
  intros Hls. unfold relist.
  rewrite bind_return with (v := tt) by reflexivity. cbn.
  rewrite bind_return with (v := files)
    by (unfold getListFiles; cbn; fold rootPath; now rewrite Hls).
  cbn.
  set (s1 := {| CACHE := CACHE s; CONFIG_CACHE := _ |}).
  rewrite bind_return with (v := bool_decide (fileName ∈ files))
    by apply warm_outcome.
  rewrite bind_return with (v := tt) by reflexivity. cbn.
  rewrite warm_trace. reflexivity.
Qed.

Lemma relist_rejected s mtimeMs :
  tsc_listFiles env rootPath = None ->
  relist P env fileName configPath mtimeMs s =
    {| outcome := Throw (Rejection "tsc isn't found");
       after := {| CACHE := CACHE s;
                   CONFIG_CACHE := <[configPath := mtimeMs]> (CONFIG_CACHE s) |};
       trace := [ListFiles rootPath] |}.
Proof.
  intros Hls. unfold relist.
  rewrite bind_return with (v := tt) by reflexivity. cbn.
  rewrite bind_throw with (e := Rejection "tsc isn't found")
    by (unfold getListFiles; cbn; fold rootPath; now rewrite Hls).
  reflexivity.
Qed.

(** Whatever the listing answers, [relist] invokes it once. *)
Lemma relist_listings s mtimeMs :
  listings (trace (relist P env fileName configPath mtimeMs s)) = 1%nat.
Proof.
  destruct (tsc_listFiles env rootPath) as [files|] eqn:Hls.
  - now rewrite (relist_listed _ _ files).
  - now rewrite relist_rejected.
Qed.

Lemma fileIsListed_stat_failed s :
  stat_mtimeMs env configPath = None ->
  fileIsListed P env fileName configPath s =
    {| outcome := Throw SystemError; after := s; trace := [Stat configPath] |}.
Proof.
  intros Hst. unfold fileIsListed.
  rewrite bind_throw with (e := SystemError)
    by (unfold fs_stat; cbn; now rewrite Hst).
  reflexivity.
Qed.

Lemma fileIsListed_hit s mtimeMs c :
  stat_mtimeMs env configPath = Some mtimeMs ->
  CACHE s !! fileName = Some c ->
  entry_configPath c = configPath ->
  CONFIG_CACHE s !! configPath = Some mtimeMs ->
  fileIsListed P env fileName configPath s =
    {| outcome := Return (entry_found c); after := s;
       trace := [Stat configPath] |}.
Proof.
  intros Hst Hc Hcp Hts. unfold fileIsListed.
  rewrite bind_return with (v := mtimeMs)
    by (unfold fs_stat; cbn; now rewrite Hst).
  cbn. rewrite bind_return with (v := Some c) by (cbn; now rewrite Hc).
  cbn. rewrite decide_True by done.
  rewrite bind_return with (v := Some mtimeMs) by (cbn; now rewrite Hts).
  cbn. rewrite decide_True by done. reflexivity.
Qed.

Lemma fileIsListed_miss s mtimeMs :
  stat_mtimeMs env configPath = Some mtimeMs ->
  ~ cache_hit s fileName configPath mtimeMs ->
  let r := relist P env fileName configPath mtimeMs s in
  fileIsListed P env fileName configPath s =
    {| outcome := outcome r; after := after r;
       trace := Stat configPath :: trace r |}.
Proof.
  intros Hst Hmiss r. unfold fileIsListed.
  rewrite bind_return with (v := mtimeMs)
    by (unfold fs_stat; cbn; now rewrite Hst).
  cbn. rewrite bind_return with (v := CACHE s !! fileName) by reflexivity.
  cbn. destruct (CACHE s !! fileName) as [c|] eqn:Hc; [|reflexivity].
  destruct (decide (entry_configPath c = configPath)) as [Hcp|]; [|reflexivity].
  rewrite bind_return with (v := CONFIG_CACHE s !! configPath) by reflexivity.
  cbn. destruct (decide (CONFIG_CACHE s !! configPath = Some mtimeMs)) as [Hts|];
    [|reflexivity].
  exfalso. apply Hmiss. split; [now exists c | exact Hts].
Qed.
End CallFacts.

Section RelistedFacts.
Variables fileName configPath : string.
Variables (s : Store) (mtimeMs : Z) (files : list string).

Lemma relisted_CONFIG_CACHE :
  CONFIG_CACHE (relisted fileName configPath s mtimeMs files)
  = <[configPath := mtimeMs]> (CONFIG_CACHE s).
Proof. unfold relisted. cbn. now rewrite warm_CONFIG_CACHE. Qed.

Lemma relisted_own_entry :
  CACHE (relisted fileName configPath s mtimeMs files) !! fileName
  = Some {| entry_configPath := configPath;
            entry_found := bool_decide (fileName ∈ files) |}.
Proof. unfold relisted. cbn. apply lookup_insert_eq. Qed.

Lemma relisted_listed k :
  k ∈ files ->
  CACHE (relisted fileName configPath s mtimeMs files) !! k
  = Some {| entry_configPath := configPath; entry_found := true |}.
Proof.
  intros Hk. destruct (decide (k = fileName)) as [->|Hne].
  - rewrite relisted_own_entry. now rewrite bool_decide_eq_true_2.
  - unfold relisted. cbn. rewrite lookup_insert_ne by congruence.
    now apply warm_listed.
Qed.

Lemma relisted_elsewhere k :
  k ∉ files -> k <> fileName ->
  CACHE (relisted fileName configPath s mtimeMs files) !! k = CACHE s !! k.
Proof.
  intros Hk Hne. unfold relisted. cbn.
  rewrite lookup_insert_ne by congruence.
  rewrite warm_unlisted by now left. reflexivity.
Qed.

Lemma relisted_non_member k c :
  CACHE (relisted fileName configPath s mtimeMs files) !! k = Some c ->
  entry_found c = false ->
  k = fileName \/ CACHE s !! k = Some c.
Proof.
  intros Hk Hc. destruct (decide (k = fileName)) as [|Hne]; [now left|].
  right. unfold relisted in Hk. cbn in Hk.
  rewrite lookup_insert_ne in Hk by congruence.
  now apply warm_non_member in Hk.
Qed.
End RelistedFacts.

(** The whole of a call, by the case it falls in. *)
Lemma fileIsListed_run P env fileName configPath s :
  fileIsListed P env fileName configPath s =
    match stat_mtimeMs env configPath with
    | None =>
        {| outcome := Throw SystemError; after := s;
           trace := [Stat configPath] |}
    | Some mtimeMs =>
        if decide (cache_hit s fileName configPath mtimeMs) then
          {| outcome := Return (from_option entry_found false
                                  (CACHE s !! fileName));
             after := s; trace := [Stat configPath] |}
        else
          match tsc_listFiles env (path_dirname P configPath) with
          | Some files =>
              {| outcome := Return (bool_decide (fileName ∈ files));
                 after := relisted fileName configPath s mtimeMs files;
                 trace := [Stat configPath;
                           ListFiles (path_dirname P configPath)] |}
          | None =>
              {| outcome := Throw (Rejection "tsc isn't found");
                 after := {| CACHE := CACHE s;
                             CONFIG_CACHE :=
                               <[configPath := mtimeMs]> (CONFIG_CACHE s) |};
                 trace := [Stat configPath;
                           ListFiles (path_dirname P configPath)] |}
          end
    end.
Proof.
  destruct (stat_mtimeMs env configPath) as [mtimeMs|] eqn:Hst;
    [|now apply fileIsListed_stat_failed].
  destruct (decide (cache_hit s fileName configPath mtimeMs))
    as [[[c [Hc Hcp]] Hts]|Hmiss].
  - rewrite Hc. cbn. now apply (fileIsListed_hit P env fileName configPath s mtimeMs c).
  - rewrite (fileIsListed_miss P env fileName configPath s mtimeMs Hst Hmiss).
    destruct (tsc_listFiles env (path_dirname P configPath)) as [files|] eqn:Hls.
    + now rewrite (relist_listed P env fileName configPath s mtimeMs files Hls).
    + now rewrite (relist_rejected P env fileName configPath s mtimeMs Hls).
Qed.

(** A call that returns leaves its answer in the queried file's entry. *)
Lemma fileIsListed_leaves_answer P env fileName configPath s b :
  outcome (fileIsListed P env fileName configPath s) = Return b ->
  CACHE (after (fileIsListed P env fileName configPath s)) !! fileName
  = Some {| entry_configPath := configPath; entry_found := b |}.
Proof.
  rewrite fileIsListed_run.
  destruct (stat_mtimeMs env configPath) as [mtimeMs|]; [|discriminate].
  destruct (decide (cache_hit s fileName configPath mtimeMs))
    as [[[c [Hc Hcp]] Hts]|Hmiss].
  - cbn. rewrite Hc. cbn. intros [= <-]. destruct c; cbn in *; congruence.
  - destruct (tsc_listFiles env (path_dirname P configPath)) as [files|];
      [|discriminate].
    cbn. intros [= <-]. apply relisted_own_entry.
Qed.

(** A call adds no entry with [found: false] except for the file it was
    asked about. *)
Lemma fileIsListed_non_member P env fileName configPath s k c :
  CACHE (after (fileIsListed P env fileName configPath s)) !! k = Some c ->
  entry_found c = false ->
  k = fileName \/ CACHE s !! k = Some c.
Proof.
  rewrite fileIsListed_run.
  destruct (stat_mtimeMs env configPath) as [mtimeMs|]; [|now right].
  destruct (decide (cache_hit s fileName configPath mtimeMs)); [now right|].
  destruct (tsc_listFiles env (path_dirname P configPath)) as [files|];
    [|now right].
  cbn. apply relisted_non_member.
Qed.

Lemma run_calls_snoc P calls c s :
  run_calls P (calls ++ [c]) s = run_call P (run_calls P calls s) c.
Proof. unfold run_calls. now rewrite fold_left_app. Qed.

Lemma run_calls_non_member P calls k c :
  CACHE (run_calls P calls initial) !! k = Some c ->
  entry_found c = false ->
  k ∈ queried calls.
Proof.
  induction calls as [|call calls IH] using rev_ind; intros Hk Hc.
  - cbn in Hk. now rewrite lookup_empty in Hk.
  - rewrite run_calls_snoc in Hk. unfold run_call in Hk.
    unfold queried. rewrite map_app. apply elem_of_app.
    apply fileIsListed_non_member in Hk as [->|Hk]; [| |exact Hc].
    + right. cbn. left.
    + left. now apply IH.
Qed.

(** ** The claims about [fileIsListed] *)

(** C1.  When a call [fileIsListed(F, C)] has returned and [C]'s stored
    modification time equals the one read by a second call
    [fileIsListed(F, C)], the second call returns the boolean cached in
    [F]'s entry (the one the first call returned), invokes the listing zero
    times and leaves both maps as they are. *)
Theorem second_call_answers_from_cache P env env' F C s b m :
  outcome (fileIsListed P env F C s) = Return b ->
  stat_mtimeMs env' C = Some m ->
  CONFIG_CACHE (after (fileIsListed P env F C s)) !! C = Some m ->
  CACHE (after (fileIsListed P env F C s)) !! F
    = Some {| entry_configPath := C; entry_found := b |}
  /\ outcome (fileIsListed P env' F C (after (fileIsListed P env F C s)))
     = Return b
  /\ listings (trace (fileIsListed P env' F C (after (fileIsListed P env F C s))))
     = 0%nat
  /\ after (fileIsListed P env' F C (after (fileIsListed P env F C s)))
     = after (fileIsListed P env F C s).
Proof.
  intros Hret Hst Hts.
  pose proof (fileIsListed_leaves_answer _ _ _ _ _ _ Hret) as Hentry.
  split; [exact Hentry|].
  rewrite (fileIsListed_hit P env' F C _ m _ Hst Hentry eq_refl Hts).
  cbn. auto.
Qed.

Lemma second_call_answers_from_cache_witness :
  let P := NodePosix.posix in
  let env := Sample.world 7 (Some [Sample.A; Sample.B]) in
  let r := fileIsListed P env Sample.B Sample.tsconfig initial in
  (outcome r = Return true
   /\ stat_mtimeMs env Sample.tsconfig = Some 7
   /\ CONFIG_CACHE (after r) !! Sample.tsconfig = Some 7)
  /\ CACHE (after r) !! Sample.B
     = Some {| entry_configPath := Sample.tsconfig; entry_found := true |}
  /\ outcome (fileIsListed P env Sample.B Sample.tsconfig (after r)) = Return true
  /\ listings (trace (fileIsListed P env Sample.B Sample.tsconfig (after r))) = 0%nat
  /\ after (fileIsListed P env Sample.B Sample.tsconfig (after r)) = after r.
Proof.
  intros P env r.
  assert (H1 : outcome r = Return true) by (vm_compute; reflexivity).
  assert (H2 : stat_mtimeMs env Sample.tsconfig = Some 7) by reflexivity.
  assert (H3 : CONFIG_CACHE (after r) !! Sample.tsconfig = Some 7)
    by (vm_compute; reflexivity).
  split; [auto|].
  exact (second_call_answers_from_cache P env env Sample.B Sample.tsconfig
           initial true 7 H1 H2 H3).
Defined.

(** C3.  On the cache-miss path, when the listing succeeds with the
    sequence [S], the call returns [true] if [F] occurs in [S] and [false]
    otherwise, and [F]'s own entry holds that same boolean. *)
Theorem miss_answers_by_listing P env F C s m S :
  stat_mtimeMs env C = Some m ->
  ~ cache_hit s F C m ->
  tsc_listFiles env (path_dirname P C) = Some S ->
  outcome (fileIsListed P env F C s) = Return (bool_decide (F ∈ S))
  /\ CACHE (after (fileIsListed P env F C s)) !! F
     = Some {| entry_configPath := C; entry_found := bool_decide (F ∈ S) |}.
Proof.
  intros Hst Hmiss Hls. rewrite fileIsListed_run, Hst, Hls.
  rewrite decide_False by exact Hmiss. cbn.
  split; [reflexivity | apply relisted_own_entry].
Qed.

Lemma miss_answers_by_listing_witness :
  let P := NodePosix.posix in
  let env := Sample.world 7 (Some [Sample.A; Sample.D]) in
  (stat_mtimeMs env Sample.tsconfig = Some 7
   /\ ~ cache_hit initial Sample.B Sample.tsconfig 7
   /\ tsc_listFiles env (path_dirname P Sample.tsconfig)
      = Some [Sample.A; Sample.D])
  /\ outcome (fileIsListed P env Sample.B Sample.tsconfig initial)
     = Return (bool_decide (Sample.B ∈ [Sample.A; Sample.D]))
  /\ CACHE (after (fileIsListed P env Sample.B Sample.tsconfig initial)) !! Sample.B
     = Some {| entry_configPath := Sample.tsconfig;
               entry_found := bool_decide (Sample.B ∈ [Sample.A; Sample.D]) |}.
Proof.
  intros P env.
  assert (H1 : stat_mtimeMs env Sample.tsconfig = Some 7) by reflexivity.
  assert (H2 : ~ cache_hit initial Sample.B Sample.tsconfig 7)
    by (intros [[c [Hc _]] _]; discriminate Hc).
  assert (H3 : tsc_listFiles env (path_dirname P Sample.tsconfig)
               = Some [Sample.A; Sample.D]) by reflexivity.
  split; [auto|].
  exact (miss_answers_by_listing P env Sample.B Sample.tsconfig initial 7
           [Sample.A; Sample.D] H1 H2 H3).
Defined.

(** C4.  A cache-miss call [fileIsListed(B, C)] whose listing is
    [[A, B, D]] returns [true] and stores every listed path other than [B]
    as a member of [C]'s set; a following call [fileIsListed(A, C)] that
    reads the same modification time returns [true] and does not invoke the
    listing. *)
Theorem listing_warms_other_files P env env' A B D C s m :
  stat_mtimeMs env C = Some m ->
  ~ cache_hit s B C m ->
  tsc_listFiles env (path_dirname P C) = Some [A; B; D] ->
  stat_mtimeMs env' C = Some m ->
  outcome (fileIsListed P env B C s) = Return true
  /\ listings (trace (fileIsListed P env B C s)) = 1%nat
  /\ (forall f, f ∈ [A; B; D] -> f <> B ->
        CACHE (after (fileIsListed P env B C s)) !! f
        = Some {| entry_configPath := C; entry_found := true |})
  /\ outcome (fileIsListed P env' A C (after (fileIsListed P env B C s)))
     = Return true
  /\ listings (trace (fileIsListed P env' A C (after (fileIsListed P env B C s))))
     = 0%nat.
Proof.
  intros Hst Hmiss Hls Hst'.
  assert (Hrun : fileIsListed P env B C s =
            {| outcome := Return true;
               after := relisted B C s m [A; B; D];
               trace := [Stat C; ListFiles (path_dirname P C)] |}).
  { rewrite fileIsListed_run, Hst, Hls. rewrite decide_False by exact Hmiss.
    rewrite bool_decide_eq_true_2; [reflexivity|]. right. left. }
  rewrite Hrun. cbn [outcome after trace].
  split; [reflexivity|]. split; [reflexivity|].
  split; [intros f Hf _; now apply relisted_listed|].
  assert (HA : CACHE (relisted B C s m [A; B; D]) !! A
               = Some {| entry_configPath := C; entry_found := true |})
    by (apply relisted_listed; left).
  assert (Hts : CONFIG_CACHE (relisted B C s m [A; B; D]) !! C = Some m)
    by (rewrite relisted_CONFIG_CACHE; apply lookup_insert_eq).
  rewrite (fileIsListed_hit P env' A C _ m _ Hst' HA eq_refl Hts).
  cbn. auto.
Qed.

Lemma listing_warms_other_files_witness :
  let P := NodePosix.posix in
  let env := Sample.world 7 (Some [Sample.A; Sample.B; Sample.D]) in
  let env' := Sample.world 7 None in
  let r := fileIsListed P env Sample.B Sample.tsconfig initial in
  (stat_mtimeMs env Sample.tsconfig = Some 7
   /\ ~ cache_hit initial Sample.B Sample.tsconfig 7
   /\ tsc_listFiles env (path_dirname P Sample.tsconfig)
      = Some [Sample.A; Sample.B; Sample.D]
   /\ stat_mtimeMs env' Sample.tsconfig = Some 7)
  /\ outcome r = Return true
  /\ listings (trace r) = 1%nat
  /\ (forall f, f ∈ [Sample.A; Sample.B; Sample.D] -> f <> Sample.B ->
        CACHE (after r) !! f
        = Some {| entry_configPath := Sample.tsconfig; entry_found := true |})
  /\ outcome (fileIsListed P env' Sample.A Sample.tsconfig (after r)) = Return true
  /\ listings (trace (fileIsListed P env' Sample.A Sample.tsconfig (after r)))
     = 0%nat.
Proof.
  intros P env env' r.
  assert (H1 : stat_mtimeMs env Sample.tsconfig = Some 7) by reflexivity.
  assert (H2 : ~ cache_hit initial Sample.B Sample.tsconfig 7)
    by (intros [[c [Hc _]] _]; discriminate Hc).
  assert (H3 : tsc_listFiles env (path_dirname P Sample.tsconfig)
               = Some [Sample.A; Sample.B; Sample.D]) by reflexivity.
  assert (H4 : stat_mtimeMs env' Sample.tsconfig = Some 7) by reflexivity.
  split; [auto|].
  exact (listing_warms_other_files P env env' Sample.A Sample.B Sample.D
           Sample.tsconfig initial 7 H1 H2 H3 H4).
Defined.

(** C5.  When the modification time read for [C] differs from the one
    stored for [C], or [F] has no entry associated with [C], the call
    invokes the listing exactly once (right after reading the modification
    time, and whether or not the listing succeeds). *)
Theorem miss_lists_exactly_once P env F C s m :
  stat_mtimeMs env C = Some m ->
  (CONFIG_CACHE s !! C <> Some m
   \/ forall c, CACHE s !! F = Some c -> entry_configPath c <> C) ->
  listings (trace (fileIsListed P env F C s)) = 1%nat
  /\ trace (fileIsListed P env F C s) = [Stat C; ListFiles (path_dirname P C)].
Proof.
  intros Hst Hmiss. rewrite fileIsListed_run, Hst.
  rewrite decide_False.
  - destruct (tsc_listFiles env (path_dirname P C)); now cbn.
  - intros [[c [Hc Hcp]] Hts]. destruct Hmiss as [Hm|Hm]; [done|].
    now apply (Hm c).
Qed.

Lemma miss_lists_exactly_once_witness :
  let P := NodePosix.posix in
  let env := Sample.world 2 (Some [Sample.A]) in
  (stat_mtimeMs env Sample.tsconfig = Some 2
   /\ (CONFIG_CACHE Sample.listed_at_1 !! Sample.tsconfig <> Some 2
       \/ forall c, CACHE Sample.listed_at_1 !! Sample.A = Some c ->
                    entry_configPath c <> Sample.tsconfig))
  /\ listings (trace (fileIsListed P env Sample.A Sample.tsconfig
                        Sample.listed_at_1)) = 1%nat
  /\ trace (fileIsListed P env Sample.A Sample.tsconfig Sample.listed_at_1)
     = [Stat Sample.tsconfig; ListFiles (path_dirname P Sample.tsconfig)].
Proof.
  intros P env.
  assert (H1 : stat_mtimeMs env Sample.tsconfig = Some 2) by reflexivity.
  assert (H2 : CONFIG_CACHE Sample.listed_at_1 !! Sample.tsconfig <> Some 2
               \/ forall c, CACHE Sample.listed_at_1 !! Sample.A = Some c ->
                            entry_configPath c <> Sample.tsconfig)
    by (left; vm_compute; discriminate).
  split; [auto|].
  exact (miss_lists_exactly_once P env Sample.A Sample.tsconfig
           Sample.listed_at_1 2 H1 H2).
Defined.

(** C9.  The cached answer is used exactly when [F] has an entry for [C]
    and the timestamp stored for [C] is equal to the modification time just
    read; a stored timestamp that differs from it, by however little,
    makes the call list again. *)
Theorem hit_needs_equal_timestamps P env F C s m :
  stat_mtimeMs env C = Some m ->
  (listings (trace (fileIsListed P env F C s)) = 0%nat <-> cache_hit s F C m)
  /\ (forall t, CONFIG_CACHE s !! C = Some t -> t <> m ->
        listings (trace (fileIsListed P env F C s)) = 1%nat).
Proof.
  intros Hst.
  assert (Hmiss : ~ cache_hit s F C m ->
                  listings (trace (fileIsListed P env F C s)) = 1%nat).
  { intros Hn. rewrite fileIsListed_run, Hst, decide_False by exact Hn.
    destruct (tsc_listFiles env (path_dirname P C)); reflexivity. }
  split; [split|].
  - intros Hz. destruct (decide (cache_hit s F C m)) as [|Hn]; [done|].
    rewrite (Hmiss Hn) in Hz. discriminate.
  - intros Hhit. rewrite fileIsListed_run, Hst, decide_True by exact Hhit.
    reflexivity.
  - intros t Ht Hne. apply Hmiss. intros [_ Hts]. congruence.
Qed.

Lemma hit_needs_equal_timestamps_witness :
  let P := NodePosix.posix in
  let env := Sample.world 2 (Some [Sample.A]) in
  let r := fileIsListed P env Sample.A Sample.tsconfig Sample.listed_at_1 in
  stat_mtimeMs env Sample.tsconfig = Some 2
  /\ (listings (trace r) = 0%nat
      <-> cache_hit Sample.listed_at_1 Sample.A Sample.tsconfig 2)
  /\ (forall t, CONFIG_CACHE Sample.listed_at_1 !! Sample.tsconfig = Some t ->
        t <> 2 -> listings (trace r) = 1%nat).
Proof.
  intros P env r.
  assert (H1 : stat_mtimeMs env Sample.tsconfig = Some 2) by reflexivity.
  split; [exact H1|].
  exact (hit_needs_equal_timestamps P env Sample.A Sample.tsconfig
           Sample.listed_at_1 2 H1).
Defined.

(** C2.  The call at which the claim breaks: [A] is cached as listed under
    modification time [1], the configuration now has modification time [2]
    and [tsc] cannot be run.  The call is rejected and [CACHE] is as
    before, but [CONFIG_CACHE] already holds [2] for the configuration; a
    retry then answers [true] from the cache without listing, although the
    configuration in force lists no file. *)
Theorem failed_listing_keeps_new_timestamp :
  let P := NodePosix.posix in
  let s := Sample.listed_at_1 in
  let r := fileIsListed P (Sample.world 2 None) Sample.A Sample.tsconfig s in
  let r' := fileIsListed P (Sample.world 2 (Some [])) Sample.A Sample.tsconfig
              (after r) in
  outcome r = Throw (Rejection "tsc isn't found")
  /\ failure_kind (outcome r) = Some ToolUnavailable
  /\ CACHE (after r) = CACHE s
  /\ CONFIG_CACHE s !! Sample.tsconfig = Some 1
  /\ CONFIG_CACHE (after r) !! Sample.tsconfig = Some 2
  /\ after r <> s
  /\ outcome r' = Return true
  /\ listings (trace r') = 0%nat.
Proof.
  intros P s r r'.
  assert (Hts : CONFIG_CACHE (after r) !! Sample.tsconfig = Some 2)
    by (vm_compute; reflexivity).
  repeat split; try (vm_compute; reflexivity); try exact Hts.
  intros Heq. rewrite Heq in Hts. vm_compute in Hts. discriminate Hts.
Qed.

(** C10.  At every point, a [CACHE] entry with [found: false] sits under a
    path that some call made so far was asked about: the loop over the
    listing stores only [found: true], so no path is marked a non-member
    for being absent from the listing obtained for another file. *)
Theorem non_members_were_queried P calls cache k c :
  observed P calls cache ->
  cache !! k = Some c ->
  entry_found c = false ->
  k ∈ queried calls.
Proof.
  intros Hobs Hk Hc. destruct Hobs.
  - now apply (run_calls_non_member P calls k c).
  - apply warm_non_member in Hk; [|exact Hc].
    now apply (run_calls_non_member P calls k c).
Qed.

Lemma non_members_were_queried_witness :
  let P := NodePosix.posix in
  let calls := [ {| call_env := Sample.world 7 (Some [Sample.A; Sample.D]);
                    call_fileName := Sample.B;
                    call_configPath := Sample.tsconfig |} ] in
  let c := {| entry_configPath := Sample.tsconfig; entry_found := false |} in
  (observed P calls (CACHE (run_calls P calls initial))
   /\ CACHE (run_calls P calls initial) !! Sample.B = Some c
   /\ entry_found c = false)
  /\ Sample.B ∈ queried calls.
Proof.
  intros P calls c.
  assert (H1 : observed P calls (CACHE (run_calls P calls initial)))
    by constructor.
  assert (H2 : CACHE (run_calls P calls initial) !! Sample.B = Some c)
    by (vm_compute; reflexivity).
  assert (H3 : entry_found c = false) by reflexivity.
  split; [auto|].
  exact (non_members_were_queried P calls _ Sample.B c H1 H2 H3).
Defined.

(** ** The inner loop of [getMostSimilarPath] *)

Section ScoreFacts.
Local Open Scope nat_scope.

Lemma chars_length s : length (JsString.chars s) = String.length s.
Proof.
  unfold JsString.chars.
  induction s as [|a s IH]; cbn; [reflexivity | now rewrite IH].
Qed.

Lemma at_chars s i : JsString.at_ s i = JsString.chars s !! i.
Proof.
  unfold JsString.at_, JsString.chars. revert i.
  induction s as [|a s IH]; intros [|i]; cbn; try reflexivity. apply IH.
Qed.

(** Reading [s[s.length - 1 - i]] is reading position [i] from the end. *)
Lemma at_from_end s i :
  i < String.length s ->
  JsString.at_ s (String.length s - 1 - i) = reverse (JsString.chars s) !! i.
Proof.
  intros Hi. rewrite at_chars.
  rewrite reverse_lookup by (rewrite chars_length; exact Hi).
  rewrite chars_length. f_equal. lia.
Qed.

Lemma common_prefix_length_nil_r {A} `{EqDecision A} (l : list A) :
  common_prefix_length l [] = 0.
Proof. now destruct l. Qed.

Lemma score_loop_counts pBase _pBase fuel i score :
  fuel + i = Nat.min (String.length pBase) (String.length _pBase) ->
  score_loop pBase _pBase fuel i score
  = score + common_prefix_length
              (drop i (reverse (JsString.chars pBase)))
              (drop i (reverse (JsString.chars _pBase))).
Proof.
  revert i score. induction fuel as [|fuel IH]; intros i score Hlen.
  - cbn. destruct (Nat.min_spec (String.length pBase) (String.length _pBase))
      as [[_ Hm]|[_ Hm]].
    + rewrite (drop_ge (reverse (JsString.chars pBase)))
        by (rewrite length_reverse, chars_length; lia).
      cbn. lia.
    + rewrite (drop_ge (reverse (JsString.chars _pBase)))
        by (rewrite length_reverse, chars_length; lia).
      rewrite common_prefix_length_nil_r. lia.
  - assert (Hi : i < String.length pBase) by lia.
    assert (Hi' : i < String.length _pBase) by lia.
    cbn [score_loop]. rewrite !at_from_end by assumption.
    destruct (lookup_lt_is_Some_2 (reverse (JsString.chars pBase)) i)
      as [x Hx]; [rewrite length_reverse, chars_length; lia|].
    destruct (lookup_lt_is_Some_2 (reverse (JsString.chars _pBase)) i)
      as [y Hy]; [rewrite length_reverse, chars_length; lia|].
    rewrite Hx, Hy, (drop_S _ x i Hx), (drop_S _ y i Hy). cbn.
    destruct (decide (Some x = Some y)) as [[= ->]|Hne].
    + rewrite decide_True by reflexivity. rewrite IH by lia. lia.
    + rewrite decide_False by congruence. lia.
Qed.

Lemma score_of_counts P pBase _p :
  score_of P pBase _p = suffix_alignment pBase (removeExt P _p).
Proof.
  unfold score_of, suffix_alignment.
  rewrite score_loop_counts by lia. now rewrite !drop_0.
Qed.

(** What [common_prefix_length] counts: the first [n] positions agree
    and, when both lists go on, position [n] does not. *)
Lemma common_prefix_length_agree {A} `{EqDecision A} (l1 l2 : list A) i :
  i < common_prefix_length l1 l2 ->
  is_Some (l1 !! i) /\ l1 !! i = l2 !! i.
Proof.
  revert l2 i. induction l1 as [|x l1 IH]; intros [|y l2] i; cbn; try lia.
  destruct (decide (x = y)) as [->|]; [|lia].
  destruct i as [|i]; cbn; [eauto|]. intros Hi. apply IH. lia.
Qed.

Lemma common_prefix_length_stop {A} `{EqDecision A} (l1 l2 : list A) x y :
  l1 !! common_prefix_length l1 l2 = Some x ->
  l2 !! common_prefix_length l1 l2 = Some y ->
  x <> y.
Proof.
  revert l2. induction l1 as [|a l1 IH]; intros [|b l2]; cbn; try done.
  destruct (decide (a = b)) as [->|Hne]; cbn; [apply IH | congruence].
Qed.
End ScoreFacts.

(** ** The sort and the element it puts first *)

Section SortFacts.
Local Open Scope nat_scope.

Lemma insert_sorted_head {A} (cmp : A -> A -> Z) x l :
  head (JsArray.insert_sorted cmp x l)
  = Some (match l with
          | [] => x
          | y :: _ => if (0 <? cmp x y)%Z then y else x
          end).
Proof. destruct l as [|y l]; cbn; [reflexivity|]. now destruct (0 <? cmp x y)%Z. Qed.

Lemma sort_cons_head {A} (cmp : A -> A -> Z) x l :
  head (JsArray.sort cmp (x :: l))
  = Some (match head (JsArray.sort cmp l) with
          | None => x
          | Some y => if (0 <? cmp x y)%Z then y else x
          end).
Proof. cbn. rewrite insert_sorted_head. now destruct (JsArray.sort cmp l). Qed.

Lemma sort_head_None {A} (cmp : A -> A -> Z) l :
  head (JsArray.sort cmp l) = None -> l = [].
Proof. destruct l as [|x l]; [reflexivity|]. now rewrite sort_cons_head. Qed.

Lemma by_score_desc_after lhs rhs :
  (0 <? by_score_desc lhs rhs)%Z = true <-> score lhs < score rhs.
Proof.
  unfold by_score_desc.
  destruct (score rhs <? score lhs) eqn:E1; [apply Nat.ltb_lt in E1|apply Nat.ltb_ge in E1];
    [split; [discriminate | lia]|].
  destruct (score lhs <? score rhs) eqn:E2; [apply Nat.ltb_lt in E2|apply Nat.ltb_ge in E2].
  - split; [intros _; exact E2 | reflexivity].
  - split; [discriminate | lia].
Qed.

(** The element sorted first is the earliest one of highest score. *)
Lemma sort_head_first_highest (l : list Scored) h :
  head (JsArray.sort by_score_desc l) = Some h ->
  exists i, l !! i = Some h
    /\ (forall j y, l !! j = Some y -> score y <= score h)
    /\ (forall j y, j < i -> l !! j = Some y -> score y < score h).
Proof.
  revert h. induction l as [|x l IH]; intros h; [discriminate|].
  rewrite sort_cons_head.
  destruct (head (JsArray.sort by_score_desc l)) as [h'|] eqn:Hh.
  - destruct (IH h' eq_refl) as (i & Hi & Hmax & Hfirst).
    destruct (0 <? by_score_desc x h')%Z eqn:Hcmp.
    + apply by_score_desc_after in Hcmp. intros [= <-].
      exists (S i). split; [exact Hi|]. split.
      * intros [|j] y; cbn; [intros [= <-]; lia | apply Hmax].
      * intros [|j] y Hj; cbn; [intros [= <-]; exact Hcmp|].
        apply Hfirst. lia.
    + assert (Hge : score h' <= score x).
      { destruct (decide (score x < score h')) as [Hlt|]; [|lia].
        apply by_score_desc_after in Hlt. congruence. }
      intros [= <-]. exists 0. split; [reflexivity|]. split.
      * intros [|j] y; cbn; [intros [= <-]; lia|].
        intros Hy. specialize (Hmax j y Hy). lia.
      * intros j y Hj. lia.
  - apply sort_head_None in Hh as ->. intros [= <-].
    exists 0. split; [reflexivity|]. split.
    + intros [|j] y; cbn; [intros [= <-]; lia | discriminate].
    + intros j y Hj. lia.
Qed.

(** The three facts that determine the sorted array: it has the elements
    of the input, in descending order of score, and elements of one score
    stand in their input order. *)
Lemma insert_sorted_Permutation {A} (cmp : A -> A -> Z) x l :
  JsArray.insert_sorted cmp x l ≡ₚ x :: l.
Proof.
  induction l as [|y l IH]; cbn; [reflexivity|].
  destruct (0 <? cmp x y)%Z; [|reflexivity].
  rewrite IH. apply Permutation_swap.
Qed.

Lemma sort_Permutation {A} (cmp : A -> A -> Z) l : JsArray.sort cmp l ≡ₚ l.
Proof.
  induction l as [|x l IH]; cbn; [reflexivity|].
  now rewrite insert_sorted_Permutation, IH.
Qed.

Lemma insert_sorted_descending x l :
  StronglySorted (fun a b => score b <= score a) l ->
  StronglySorted (fun a b => score b <= score a)
    (JsArray.insert_sorted by_score_desc x l).
Proof.
  induction 1 as [|y l Hl IH Hy]; cbn; [repeat constructor|].
  destruct (0 <? by_score_desc x y)%Z eqn:Hcmp.
  - apply by_score_desc_after in Hcmp. constructor; [exact IH|].
    rewrite insert_sorted_Permutation. constructor; [lia | exact Hy].
  - assert (Hge : score y <= score x).
    { destruct (decide (score x < score y)) as [Hlt|]; [|lia].
      apply by_score_desc_after in Hlt. congruence. }
    constructor; [now constructor|].
    constructor; [exact Hge|].
    eapply Forall_impl; [exact Hy|]. cbn. intros z Hz. lia.
Qed.

Lemma sort_descending l :
  StronglySorted (fun a b => score b <= score a)
    (JsArray.sort by_score_desc l).
Proof.
  induction l as [|x l IH]; cbn; [constructor|].
  now apply insert_sorted_descending.
Qed.

Lemma insert_sorted_stable n x l :
  filter (fun y => score y = n) (JsArray.insert_sorted by_score_desc x l)
  = filter (fun y => score y = n) (x :: l).
Proof.
  induction l as [|y l IH]; cbn [JsArray.insert_sorted]; [reflexivity|].
  destruct (0 <? by_score_desc x y)%Z eqn:Hcmp; [|reflexivity].
  apply by_score_desc_after in Hcmp.
  destruct (decide (score y = n)) as [Hy|Hy].
  - rewrite (filter_cons_True _ y) by exact Hy. rewrite IH.
    rewrite (filter_cons_False _ x) by lia.
    rewrite (filter_cons_False _ x) by lia.
    now rewrite (filter_cons_True _ y) by exact Hy.
  - rewrite (filter_cons_False _ y) by exact Hy. rewrite IH.
    destruct (decide (score x = n)) as [Hx|Hx].
    + rewrite !(filter_cons_True _ x) by exact Hx.
      now rewrite (filter_cons_False _ y) by exact Hy.
    + rewrite !(filter_cons_False _ x) by exact Hx.
      now rewrite (filter_cons_False _ y) by exact Hy.
Qed.

Lemma sort_stable n l :
  filter (fun y => score y = n) (JsArray.sort by_score_desc l)
  = filter (fun y => score y = n) l.
Proof.
  induction l as [|x l IH]; cbn [JsArray.sort]; [reflexivity|].
  rewrite insert_sorted_stable.
  destruct (decide (score x = n)) as [Hx|Hx].
  - rewrite !(filter_cons_True _ x) by exact Hx. now rewrite IH.
  - rewrite !(filter_cons_False _ x) by exact Hx. exact IH.
Qed.

Lemma scored_lookup P p ps i :
  scored P p ps !! i
  = (fun _p => {| path := _p; score := score_of P (removeExt P p) _p |})
      <$> ps !! i.
Proof.
  unfold scored. revert i.
  induction ps as [|c ps IH]; intros [|i]; cbn; try reflexivity. apply IH.
Qed.

Lemma getMostSimilarPath_head P p ps :
  getMostSimilarPath P p ps
  = match head (JsArray.sort by_score_desc (scored P p ps)) with
    | Some first => Return (path first)
    | None => Throw TypeError
    end.
Proof.
  unfold getMostSimilarPath.
  now destruct (JsArray.sort by_score_desc (scored P p ps)).
Qed.

Lemma substring0_all s : JsString.substring0 s (String.length s) = s.
Proof.
  unfold JsString.substring0.
  induction s as [|a s IH]; cbn; [reflexivity | now rewrite IH].
Qed.
End SortFacts.

(** The first example of the specification under any [path] module that
    finds the extensions [.ts] and [.js] in its three paths. *)
Lemma foo_selected_under_any_path_module P :
  path_extname P "/p/src/foo.ts" = ".ts" ->
  path_extname P "/p/out/foo.js" = ".js" ->
  path_extname P "/p/out/bar.js" = ".js" ->
  scored P "/p/src/foo.ts" ["/p/out/foo.js"; "/p/out/bar.js"]
  = [ {| path := "/p/out/foo.js"; score := 4 |};
      {| path := "/p/out/bar.js"; score := 0 |} ]
  /\ getMostSimilarPath P "/p/src/foo.ts" ["/p/out/foo.js"; "/p/out/bar.js"]
     = Return "/p/out/foo.js".
Proof.
  intros Hts Hfoo Hbar.
  unfold getMostSimilarPath, scored, score_of, removeExt. cbn [map].
  rewrite Hts, Hfoo, Hbar. split; vm_compute; reflexivity.
Qed.

(** ** The claims about [getMostSimilarPath] *)

(** What [removeExt] removes. *)
Section StemFacts.
Local Open Scope nat_scope.

Lemma substring0_chars s n :
  JsString.chars (JsString.substring0 s n) = take n (JsString.chars s).
Proof.
  unfold JsString.substring0, JsString.chars. revert n.
  induction s as [|c s IH]; intros [|n]; cbn; try reflexivity.
  now rewrite IH.
Qed.

Lemma removeExt_without_extension P p :
  removeExt P p = without_extension P p.
Proof.
  unfold without_extension. rewrite <- substring0_chars.
  unfold JsString.chars. now rewrite string_of_list_ascii_of_string.
Qed.

Lemma chars_of_append (a b : string) :
  JsString.chars (a ++ b) = (JsString.chars a ++ JsString.chars b)%list.
Proof.
  unfold JsString.chars. induction a as [|x a IH]; [reflexivity|].
  change (String x a ++ b) with (String x (a ++ b)). cbn. now rewrite IH.
Qed.

(** When the extension ends the path, what is left is what precedes it. *)
Lemma without_extension_stem P p stem :
  p = stem ++ path_extname P p -> without_extension P p = stem.
Proof.
  intros Hp. unfold without_extension.
  remember (path_extname P p) as ext eqn:Hext. clear Hext. subst p.
  rewrite <- !chars_length, chars_of_append, length_app, Nat.add_sub.
  rewrite take_app_length. unfold JsString.chars.
  apply string_of_list_ascii_of_string.
Qed.

Lemma scored_alignment P p ps :
  scored P p ps
  = map (fun c => {| path := c; score := alignment_score P p c |}) ps.
Proof.
  unfold scored, alignment_score. apply map_ext. intros c.
  now rewrite score_of_counts, !removeExt_without_extension.
Qed.
End StemFacts.

(** C6.  The score given to a candidate is the number of characters that
    agree, position by position from the last character backward and up to
    the first mismatch, between the reference and the candidate without
    their extensions.  [removeExt] takes off a path as many trailing
    characters as [path.extname] has, hence the extension where it ends
    the path, and leaves a path for which [path.extname] is empty as it
    is.  [/p/src/foo.ts] against [/p/out/foo.js] and [/p/out/bar.js]
    scores [4] and [0] and selects [/p/out/foo.js]. *)
Theorem score_is_suffix_alignment :
  (forall P p, removeExt P p = without_extension P p)
  /\ (forall P p stem, p = stem ++ path_extname P p -> removeExt P p = stem)
  /\ (forall P p, path_extname P p = "" -> removeExt P p = p)
  /\ (forall P p ps,
        scored P p ps
        = map (fun c => {| path := c; score := alignment_score P p c |}) ps)
  /\ (forall P p c stem_p stem_c,
        p = stem_p ++ path_extname P p ->
        c = stem_c ++ path_extname P c ->
        score_of P (removeExt P p) c = suffix_alignment stem_p stem_c)
  /\ scored NodePosix.posix "/p/src/foo.ts" ["/p/out/foo.js"; "/p/out/bar.js"]
     = [ {| path := "/p/out/foo.js"; score := 4 |};
         {| path := "/p/out/bar.js"; score := 0 |} ]
  /\ getMostSimilarPath NodePosix.posix "/p/src/foo.ts"
       ["/p/out/foo.js"; "/p/out/bar.js"] = Return "/p/out/foo.js".
Proof.
  split; [exact removeExt_without_extension|].
  split.
  { intros P p stem Hp. rewrite removeExt_without_extension.
    now apply without_extension_stem. }
  split.
  { intros P p Hext. unfold removeExt. rewrite Hext. cbn.
    rewrite Nat.sub_0_r. apply substring0_all. }
  split; [exact scored_alignment|].
  split.
  { intros P p c stem_p stem_c Hp Hc.
    rewrite score_of_counts, !removeExt_without_extension.
    now rewrite (without_extension_stem P p stem_p Hp),
                (without_extension_stem P c stem_c Hc). }
  split; vm_compute; reflexivity.
Qed.

Lemma score_is_suffix_alignment_witness :
  ("/p/src/foo.ts" = "/p/src/foo" ++ path_extname NodePosix.posix "/p/src/foo.ts"
   /\ "/p/out/foo.js" = "/p/out/foo" ++ path_extname NodePosix.posix "/p/out/foo.js")
  /\ removeExt NodePosix.posix "/p/src/foo.ts" = "/p/src/foo"
  /\ score_of NodePosix.posix (removeExt NodePosix.posix "/p/src/foo.ts")
       "/p/out/foo.js"
     = suffix_alignment "/p/src/foo" "/p/out/foo"
  /\ suffix_alignment "/p/src/foo" "/p/out/foo" = 4%nat.
Proof.
  assert (H1 : "/p/src/foo.ts"
               = "/p/src/foo" ++ path_extname NodePosix.posix "/p/src/foo.ts")
    by (vm_compute; reflexivity).
  assert (H2 : "/p/out/foo.js"
               = "/p/out/foo" ++ path_extname NodePosix.posix "/p/out/foo.js")
    by (vm_compute; reflexivity).
  split; [auto|]. split; [|split].
  - exact (proj1 (proj2 score_is_suffix_alignment) NodePosix.posix
             "/p/src/foo.ts" "/p/src/foo" H1).
  - exact (proj1 (proj2 (proj2 (proj2 (proj2 score_is_suffix_alignment))))
             NodePosix.posix "/p/src/foo.ts" "/p/out/foo.js"
             "/p/src/foo" "/p/out/foo" H1 H2).
  - vm_compute. reflexivity.
Defined.

(** C7.  For a non-empty list of candidates [getMostSimilarPath] returns a
    candidate of the highest score, the score being the suffix alignment
    of reference and candidate without their extensions, namely the first
    such candidate in the order of the input; when every candidate scores
    [0] that is the first candidate of the list, and nothing is thrown. *)
Theorem best_match_is_first_highest P p ps :
  ps <> [] ->
  exists i c,
    ps !! i = Some c
    /\ getMostSimilarPath P p ps = Return c
    /\ (forall j c', ps !! j = Some c' ->
          (alignment_score P p c' <= alignment_score P p c)%nat)
    /\ (forall j c', (j < i)%nat -> ps !! j = Some c' ->
          (alignment_score P p c' < alignment_score P p c)%nat)
    /\ ((forall c', c' ∈ ps -> alignment_score P p c' = 0%nat) ->
        i = 0%nat).
Proof.
  intros Hne. rewrite getMostSimilarPath_head.
  destruct (head (JsArray.sort by_score_desc (scored P p ps))) as [h|] eqn:Hh.
  - destruct (sort_head_first_highest _ _ Hh) as (i & Hi & Hmax & Hfirst).
    rewrite scored_alignment in Hi, Hmax, Hfirst.
    assert (Hall : forall j c', ps !! j = Some c' ->
              map (fun c => {| path := c; score := alignment_score P p c |}) ps
                !! j
              = Some {| path := c'; score := alignment_score P p c' |}).
    { intros j c' Hj. now rewrite list_lookup_fmap, Hj. }
    rewrite list_lookup_fmap in Hi.
    destruct (ps !! i) as [c|] eqn:Hc; [|discriminate].
    injection Hi as <-. cbn in Hmax, Hfirst |- *.
    exists i, c. split; [exact Hc|]. split; [reflexivity|].
    split; [|split].
    + intros j c' Hj. exact (Hmax j _ (Hall j c' Hj)).
    + intros j c' Hlt Hj. exact (Hfirst j _ Hlt (Hall j c' Hj)).
    + intros Hzero. destruct i as [|i]; [reflexivity|]. exfalso.
      destruct ps as [|c0 ps]; [done|].
      pose proof (Hfirst 0%nat _ (Nat.lt_0_succ i) (Hall 0%nat c0 eq_refl)) as Hlt.
      cbn in Hlt. rewrite (Hzero c) in Hlt; [lia|].
      apply list_elem_of_lookup. now exists (S i).
  - apply sort_head_None in Hh. unfold scored in Hh.
    destruct ps; [done | discriminate].
Qed.

Lemma best_match_is_first_highest_witness :
  let P := NodePosix.posix in
  let ps := ["/p/out/bar.ts"; "/p/out/foo.js"] in
  ps <> []
  /\ alignment_score P "/p/src/foo.ts" "/p/out/bar.ts" = 0%nat
  /\ alignment_score P "/p/src/foo.ts" "/p/out/foo.js" = 4%nat
  /\ getMostSimilarPath P "/p/src/foo.ts" ps = Return "/p/out/foo.js".
Proof.
  intros P ps.
  assert (H : ps <> []) by discriminate.
  assert (Hbar : alignment_score P "/p/src/foo.ts" "/p/out/bar.ts" = 0%nat)
    by (vm_compute; reflexivity).
  assert (Hfoo : alignment_score P "/p/src/foo.ts" "/p/out/foo.js" = 4%nat)
    by (vm_compute; reflexivity).
  split; [exact H|]. split; [exact Hbar|]. split; [exact Hfoo|].
  destruct (best_match_is_first_highest P "/p/src/foo.ts" ps H)
    as (i & c & Hi & Hret & Hmax & _).
  destruct i as [|[|i]]; cbn in Hi; [| |discriminate Hi].
  - injection Hi as <-. exfalso.
    pose proof (Hmax 1%nat "/p/out/foo.js" eq_refl) as Hle.
    rewrite Hbar, Hfoo in Hle. lia.
  - injection Hi as <-. exact Hret.
Defined.

(** The tie of the specification: both candidates score [0] and the first
    one is returned. *)
Example tie_returns_first_candidate :
  scored NodePosix.posix "/a/z.ts" ["/x/q.js"; "/y/q.js"]
  = [ {| path := "/x/q.js"; score := 0 |}; {| path := "/y/q.js"; score := 0 |} ]
  /\ getMostSimilarPath NodePosix.posix "/a/z.ts" ["/x/q.js"; "/y/q.js"]
     = Return "/x/q.js".
Proof. split; vm_compute; reflexivity. Qed.

(** C8, as the code has it.  With no candidate the sorted array is empty,
    [arr[0]] is [undefined] and reading its [path] throws a [TypeError];
    the function has no check of its argument and no error of its own. *)
Theorem no_candidate_throws_TypeError P p :
  getMostSimilarPath P p [] = Throw TypeError.
Proof. reflexivity. Qed.

(** C8, as the specification has it, fails: the failure on an empty list
    is not of the class [InvalidArgument]. *)
Lemma no_candidate_is_not_InvalidArgument :
  failure_kind (getMostSimilarPath NodePosix.posix "/a/z.ts" [])
  <> Some InvalidArgument.
Proof. cbn. discriminate. Qed.

(** * Further properties of the cache *)

Lemma relisted_entry_origin fileName configPath s mtimeMs files k e :
  CACHE (relisted fileName configPath s mtimeMs files) !! k = Some e ->
  entry_configPath e = configPath \/ CACHE s !! k = Some e.
Proof.
  intros Hk. destruct (decide (k = fileName)) as [->|Hne].
  - rewrite relisted_own_entry in Hk. injection Hk as <-. now left.
  - destruct (decide (k ∈ files)) as [Hin|Hout].
    + rewrite relisted_listed in Hk by exact Hin. injection Hk as <-. now left.
    + rewrite relisted_elsewhere in Hk by assumption. now right.
Qed.

Lemma relisted_keeps_keys fileName configPath s mtimeMs files k :
  is_Some (CACHE s !! k) ->
  is_Some (CACHE (relisted fileName configPath s mtimeMs files) !! k).
Proof.
  intros Hk. destruct (decide (k = fileName)) as [->|Hne].
  - rewrite relisted_own_entry. eauto.
  - destruct (decide (k ∈ files)) as [Hin|Hout].
    + rewrite relisted_listed by exact Hin. eauto.
    + now rewrite relisted_elsewhere by assumption.
Qed.

(** The maps a call leaves are the ones it found, or those with the
    timestamp recorded, or those after a whole re-listing. *)
Lemma fileIsListed_after_cases P env fileName configPath s :
  after (fileIsListed P env fileName configPath s) = s
  \/ (exists mtimeMs,
        stat_mtimeMs env configPath = Some mtimeMs
        /\ after (fileIsListed P env fileName configPath s)
           = {| CACHE := CACHE s;
                CONFIG_CACHE := <[configPath := mtimeMs]> (CONFIG_CACHE s) |})
  \/ (exists mtimeMs files,
        stat_mtimeMs env configPath = Some mtimeMs
        /\ tsc_listFiles env (path_dirname P configPath) = Some files
        /\ after (fileIsListed P env fileName configPath s)
           = relisted fileName configPath s mtimeMs files).
Proof.
  rewrite fileIsListed_run.
  destruct (stat_mtimeMs env configPath) as [mtimeMs|]; [|now left].
  destruct (decide (cache_hit s fileName configPath mtimeMs)); [now left|].
  destruct (tsc_listFiles env (path_dirname P configPath)) as [files|].
  - right. right. now exists mtimeMs, files.
  - right. left. now exists mtimeMs.
Qed.

(** X1.  When the configuration file cannot be read the call fails at
    once with the error of [fs.stat]: nothing is listed and both maps are
    left as they were. *)
Theorem unreadable_config_fails_early P env F C s :
  stat_mtimeMs env C = None ->
  outcome (fileIsListed P env F C s) = Throw SystemError
  /\ failure_kind (outcome (fileIsListed P env F C s)) = Some IOError
  /\ after (fileIsListed P env F C s) = s
  /\ trace (fileIsListed P env F C s) = [Stat C].
Proof.
  intros Hst. rewrite fileIsListed_run, Hst. cbn. auto.
Qed.

Lemma unreadable_config_fails_early_witness :
  let P := NodePosix.posix in
  let env := Sample.world 7 (Some [Sample.A]) in
  stat_mtimeMs env "/q/tsconfig.json" = None
  /\ outcome (fileIsListed P env Sample.A "/q/tsconfig.json" Sample.listed_at_1)
     = Throw SystemError
  /\ failure_kind
       (outcome (fileIsListed P env Sample.A "/q/tsconfig.json" Sample.listed_at_1))
     = Some IOError
  /\ after (fileIsListed P env Sample.A "/q/tsconfig.json" Sample.listed_at_1)
     = Sample.listed_at_1
  /\ trace (fileIsListed P env Sample.A "/q/tsconfig.json" Sample.listed_at_1)
     = [Stat "/q/tsconfig.json"].
Proof.
  intros P env.
  assert (H : stat_mtimeMs env "/q/tsconfig.json" = None) by reflexivity.
  split; [exact H|].
  exact (unreadable_config_fails_early P env Sample.A "/q/tsconfig.json"
           Sample.listed_at_1 H).
Defined.

(** X2.  A re-listing does not touch the entry of a path that the new
    listing leaves out (unless it is the queried file).  As the timestamp
    of the configuration is brought up to date all the same, a later call
    for such a path under that timestamp is answered from its old entry,
    without listing. *)
Theorem unlisted_entry_outlives_relisting P env env' F K C s m files c :
  stat_mtimeMs env C = Some m ->
  ~ cache_hit s F C m ->
  tsc_listFiles env (path_dirname P C) = Some files ->
  K <> F -> K ∉ files ->
  CACHE s !! K = Some c -> entry_configPath c = C ->
  stat_mtimeMs env' C = Some m ->
  CACHE (after (fileIsListed P env F C s)) !! K = Some c
  /\ fileIsListed P env' K C (after (fileIsListed P env F C s))
     = {| outcome := Return (entry_found c);
          after := after (fileIsListed P env F C s);
          trace := [Stat C] |}.
Proof.
  intros Hst Hmiss Hls HKF HK Hc Hcp Hst'.
  assert (Hafter : after (fileIsListed P env F C s) = relisted F C s m files).
  { rewrite fileIsListed_run, Hst, Hls. now rewrite decide_False by exact Hmiss. }
  rewrite Hafter.
  assert (HK' : CACHE (relisted F C s m files) !! K = Some c)
    by now rewrite relisted_elsewhere.
  split; [exact HK'|].
  apply (fileIsListed_hit P env' K C _ m c Hst' HK' Hcp).
  rewrite relisted_CONFIG_CACHE. apply lookup_insert_eq.
Qed.

Lemma unlisted_entry_outlives_relisting_witness :
  let P := NodePosix.posix in
  let env := Sample.world 2 (Some [Sample.B]) in
  let c := {| entry_configPath := Sample.tsconfig; entry_found := true |} in
  let s' := after (fileIsListed P env Sample.B Sample.tsconfig Sample.listed_at_1) in
  (stat_mtimeMs env Sample.tsconfig = Some 2
   /\ ~ cache_hit Sample.listed_at_1 Sample.B Sample.tsconfig 2
   /\ tsc_listFiles env (path_dirname P Sample.tsconfig) = Some [Sample.B]
   /\ Sample.A <> Sample.B /\ (Sample.A ∉ [Sample.B])
   /\ CACHE Sample.listed_at_1 !! Sample.A = Some c
   /\ entry_configPath c = Sample.tsconfig)
  /\ CACHE s' !! Sample.A = Some c
  /\ fileIsListed P env Sample.A Sample.tsconfig s'
     = {| outcome := Return (entry_found c); after := s';
          trace := [Stat Sample.tsconfig] |}.
Proof.
  intros P env c s'.
  assert (H1 : stat_mtimeMs env Sample.tsconfig = Some 2) by reflexivity.
  assert (H2 : ~ cache_hit Sample.listed_at_1 Sample.B Sample.tsconfig 2)
    by (intros [[e [He _]] _]; vm_compute in He; discriminate He).
  assert (H3 : tsc_listFiles env (path_dirname P Sample.tsconfig)
               = Some [Sample.B]) by reflexivity.
  assert (H4 : Sample.A <> Sample.B) by discriminate.
  assert (H5 : Sample.A ∉ [Sample.B])
    by (intros Hin; apply list_elem_of_singleton in Hin; discriminate Hin).
  assert (H6 : CACHE Sample.listed_at_1 !! Sample.A = Some c)
    by (vm_compute; reflexivity).
  assert (H7 : entry_configPath c = Sample.tsconfig) by reflexivity.
  split; [auto 10|].
  exact (unlisted_entry_outlives_relisting P env env Sample.B Sample.A
           Sample.tsconfig Sample.listed_at_1 2 [Sample.B] c
           H1 H2 H3 H4 H5 H6 H7 H1).
Defined.

(** X3.  A call for the configuration [C] leaves the timestamp of every
    other configuration alone, and every entry it writes names [C]: an
    entry found afterwards either was there before or names [C]. *)
Theorem call_writes_only_its_config P env F C s :
  (forall C', C' <> C ->
     CONFIG_CACHE (after (fileIsListed P env F C s)) !! C'
     = CONFIG_CACHE s !! C')
  /\ (forall k e,
        CACHE (after (fileIsListed P env F C s)) !! k = Some e ->
        CACHE s !! k = Some e \/ entry_configPath e = C).
Proof.
  destruct (fileIsListed_after_cases P env F C s)
    as [-> | [(m & _ & ->) | (m & files & _ & _ & ->)]].
  - split; [reflexivity | now left].
  - cbn. split; [|now left].
    intros C' Hne. now apply lookup_insert_ne.
  - split.
    + intros C' Hne. rewrite relisted_CONFIG_CACHE. now apply lookup_insert_ne.
    + intros k e Hk. apply relisted_entry_origin in Hk. tauto.
Qed.

Lemma call_writes_only_its_config_witness :
  let P := NodePosix.posix in
  let env := {| stat_mtimeMs := fun _ => Some 5;
                tsc_listFiles := fun _ => Some [Sample.A; Sample.B] |} in
  let r := fileIsListed P env Sample.B "/q/tsconfig.json" Sample.listed_at_1 in
  ("/p/tsconfig.json" <> "/q/tsconfig.json"
   /\ CACHE (after r) !! Sample.A
      = Some {| entry_configPath := "/q/tsconfig.json"; entry_found := true |})
  /\ CONFIG_CACHE (after r) !! "/p/tsconfig.json"
     = CONFIG_CACHE Sample.listed_at_1 !! "/p/tsconfig.json"
  /\ (CACHE Sample.listed_at_1 !! Sample.A
      = Some {| entry_configPath := "/q/tsconfig.json"; entry_found := true |}
      \/ "/q/tsconfig.json" = "/q/tsconfig.json").
Proof.
  intros P env r.
  assert (H1 : "/p/tsconfig.json" <> "/q/tsconfig.json") by discriminate.
  assert (H2 : CACHE (after r) !! Sample.A
               = Some {| entry_configPath := "/q/tsconfig.json";
                         entry_found := true |}) by (vm_compute; reflexivity).
  split; [auto|]. split.
  - exact (proj1 (call_writes_only_its_config P env Sample.B "/q/tsconfig.json"
                    Sample.listed_at_1) "/p/tsconfig.json" H1).
  - exact (proj2 (call_writes_only_its_config P env Sample.B "/q/tsconfig.json"
                    Sample.listed_at_1) Sample.A _ H2).
Defined.

(** X4.  An entry remembers one configuration.  Once a call for [F] under
    [C] has returned, a call for [F] under another configuration [C'] that
    can be read lists again, whatever timestamps are stored. *)
Theorem other_config_lists_again P env env' F C C' s b m' :
  outcome (fileIsListed P env F C s) = Return b ->
  C' <> C ->
  stat_mtimeMs env' C' = Some m' ->
  trace (fileIsListed P env' F C' (after (fileIsListed P env F C s)))
  = [Stat C'; ListFiles (path_dirname P C')].
Proof.
  intros Hret Hne Hst'.
  pose proof (fileIsListed_leaves_answer _ _ _ _ _ _ Hret) as Hentry.
  rewrite (fileIsListed_run P env' F C'), Hst'.
  rewrite decide_False.
  - now destruct (tsc_listFiles env' (path_dirname P C')).
  - intros [[c [Hc Hcp]] _]. rewrite Hentry in Hc. injection Hc as <-.
    cbn in Hcp. congruence.
Qed.

Lemma other_config_lists_again_witness :
  let P := NodePosix.posix in
  let env := {| stat_mtimeMs := fun _ => Some 5;
                tsc_listFiles := fun _ => Some [Sample.A] |} in
  let r := fileIsListed P env Sample.A "/p/tsconfig.json" initial in
  (outcome r = Return true
   /\ "/p/src/tsconfig.json" <> "/p/tsconfig.json"
   /\ stat_mtimeMs env "/p/src/tsconfig.json" = Some 5)
  /\ trace (fileIsListed P env Sample.A "/p/src/tsconfig.json" (after r))
     = [Stat "/p/src/tsconfig.json";
        ListFiles (path_dirname P "/p/src/tsconfig.json")].
Proof.
  intros P env r.
  assert (H1 : outcome r = Return true) by (vm_compute; reflexivity).
  assert (H2 : "/p/src/tsconfig.json" <> "/p/tsconfig.json") by discriminate.
  assert (H3 : stat_mtimeMs env "/p/src/tsconfig.json" = Some 5) by reflexivity.
  split; [auto|].
  exact (other_config_lists_again P env env Sample.A "/p/tsconfig.json"
           "/p/src/tsconfig.json" initial true 5 H1 H2 H3).
Defined.

Lemma fileIsListed_keeps_keys P env fileName configPath s :
  dom (CACHE s) ⊆ dom (CACHE (after (fileIsListed P env fileName configPath s)))
  /\ dom (CONFIG_CACHE s)
     ⊆ dom (CONFIG_CACHE (after (fileIsListed P env fileName configPath s))).
Proof.
  destruct (fileIsListed_after_cases P env fileName configPath s)
    as [-> | [(m & _ & ->) | (m & files & _ & _ & ->)]].
  - split; reflexivity.
  - cbn. split; [reflexivity|]. rewrite dom_insert_L. set_solver.
  - split.
    + intros k Hk. apply elem_of_dom. apply relisted_keeps_keys.
      now apply elem_of_dom.
    + rewrite relisted_CONFIG_CACHE, dom_insert_L. set_solver.
Qed.

(** X5.  Nothing is ever removed: over any sequence of calls the keys of
    [CACHE] and of [CONFIG_CACHE] only grow. *)
Theorem maps_only_grow P calls s :
  dom (CACHE s) ⊆ dom (CACHE (run_calls P calls s))
  /\ dom (CONFIG_CACHE s) ⊆ dom (CONFIG_CACHE (run_calls P calls s)).
Proof.
  induction calls as [|call calls IH] using rev_ind; [split; reflexivity|].
  rewrite run_calls_snoc. unfold run_call.
  destruct IH as [IH1 IH2].
  destruct (fileIsListed_keeps_keys P (call_env call) (call_fileName call)
              (call_configPath call) (run_calls P calls s)) as [H1 H2].
  split; etransitivity; eassumption.
Qed.

(** X6.  A call reads the modification time of the configuration first and
    lists at most once, in the directory of the configuration; it lists
    only if the modification time could be read. *)
Theorem call_stats_then_lists_at_most_once P env F C s :
  (trace (fileIsListed P env F C s) = [Stat C]
   \/ trace (fileIsListed P env F C s) = [Stat C; ListFiles (path_dirname P C)])
  /\ (stat_mtimeMs env C = None -> trace (fileIsListed P env F C s) = [Stat C]).
Proof.
  rewrite fileIsListed_run.
  destruct (stat_mtimeMs env C) as [m|]; [|now split; [left|]].
  split; [|discriminate].
  destruct (decide (cache_hit s F C m)); [now left|].
  destruct (tsc_listFiles env (path_dirname P C)); now right.
Qed.

Lemma fileIsListed_entries_have_timestamps P env fileName configPath s :
  (forall k e, CACHE s !! k = Some e ->
               is_Some (CONFIG_CACHE s !! entry_configPath e)) ->
  forall k e,
    CACHE (after (fileIsListed P env fileName configPath s)) !! k = Some e ->
    is_Some (CONFIG_CACHE (after (fileIsListed P env fileName configPath s))
               !! entry_configPath e).
Proof.
  intros Hinv.
  destruct (fileIsListed_after_cases P env fileName configPath s)
    as [-> | [(m & _ & ->) | (m & files & _ & _ & ->)]].
  - exact Hinv.
  - cbn. intros k e Hk. apply lookup_insert_is_Some'. right. now apply (Hinv k).
  - intros k e Hk. rewrite relisted_CONFIG_CACHE.
    apply lookup_insert_is_Some'.
    apply relisted_entry_origin in Hk as [Hk|Hk]; [now left|].
    right. now apply (Hinv k).
Qed.

(** X7.  Over any sequence of calls from the empty maps, every entry of
    [CACHE] names a configuration for which [CONFIG_CACHE] holds a
    timestamp. *)
Theorem entries_have_timestamps P calls k e :
  CACHE (run_calls P calls initial) !! k = Some e ->
  is_Some (CONFIG_CACHE (run_calls P calls initial) !! entry_configPath e).
Proof.
  revert k e. induction calls as [|call calls IH] using rev_ind; intros k e.
  - cbn. now rewrite lookup_empty.
  - rewrite run_calls_snoc. unfold run_call.
    now apply fileIsListed_entries_have_timestamps.
Qed.

Lemma entries_have_timestamps_witness :
  let P := NodePosix.posix in
  let calls := [ {| call_env := Sample.world 7 (Some [Sample.A; Sample.D]);
                    call_fileName := Sample.B;
                    call_configPath := Sample.tsconfig |} ] in
  let e := {| entry_configPath := Sample.tsconfig; entry_found := true |} in
  CACHE (run_calls P calls initial) !! Sample.D = Some e
  /\ is_Some (CONFIG_CACHE (run_calls P calls initial) !! entry_configPath e).
Proof.
  intros P calls e.
  assert (H : CACHE (run_calls P calls initial) !! Sample.D = Some e)
    by (vm_compute; reflexivity).
  split; [exact H|].
  exact (entries_have_timestamps P calls Sample.D e H).
Defined.

(** * Further properties of the matcher *)

Section AlignmentFacts.
Local Open Scope nat_scope.

Lemma common_prefix_length_le_l {A} `{EqDecision A} (l1 l2 : list A) :
  common_prefix_length l1 l2 <= length l1.
Proof.
  revert l2. induction l1 as [|x l1 IH]; intros [|y l2]; cbn; try lia.
  destruct (decide (x = y)); [|lia]. specialize (IH l2). lia.
Qed.

Lemma common_prefix_length_le_r {A} `{EqDecision A} (l1 l2 : list A) :
  common_prefix_length l1 l2 <= length l2.
Proof.
  revert l2. induction l1 as [|x l1 IH]; intros [|y l2]; cbn; try lia.
  destruct (decide (x = y)); [|lia]. specialize (IH l2). lia.
Qed.

Lemma common_prefix_length_diag {A} `{EqDecision A} (l : list A) :
  common_prefix_length l l = length l.
Proof.
  induction l as [|x l IH]; cbn; [reflexivity|].
  rewrite decide_True by reflexivity. now rewrite IH.
Qed.

Lemma common_prefix_length_full {A} `{EqDecision A} (l1 l2 : list A) :
  common_prefix_length l1 l2 = length l1 -> l1 `prefix_of` l2.
Proof.
  revert l2. induction l1 as [|x l1 IH]; intros l2 Hlen.
  - apply prefix_nil.
  - destruct l2 as [|y l2]; [discriminate|]. cbn in Hlen.
    destruct (decide (x = y)) as [->|]; [|discriminate].
    apply prefix_cons, IH. lia.
Qed.

Lemma suffix_alignment_le a b :
  suffix_alignment a b <= String.length a
  /\ suffix_alignment a b <= String.length b.
Proof.
  unfold suffix_alignment. split.
  - etransitivity; [apply common_prefix_length_le_l|].
    now rewrite length_reverse, chars_length.
  - etransitivity; [apply common_prefix_length_le_r|].
    now rewrite length_reverse, chars_length.
Qed.

Lemma suffix_alignment_diag a : suffix_alignment a a = String.length a.
Proof.
  unfold suffix_alignment.
  now rewrite common_prefix_length_diag, length_reverse, chars_length.
Qed.

Lemma suffix_alignment_full a b :
  suffix_alignment a b = String.length a ->
  JsString.chars a `suffix_of` JsString.chars b.
Proof.
  unfold suffix_alignment. intros Hlen.
  apply suffix_prefix_reverse, common_prefix_length_full.
  now rewrite length_reverse, chars_length.
Qed.
End AlignmentFacts.

(** X8.  The score of a candidate never exceeds the length of either path
    without its extension. *)
Theorem score_at_most_shorter_stem P p ps e :
  e ∈ scored P p ps ->
  (score e <= String.length (removeExt P p))%nat
  /\ (score e <= String.length (removeExt P (path e)))%nat.
Proof.
  intros He. apply list_elem_of_lookup in He as [i Hi].
  rewrite scored_lookup in Hi.
  destruct (ps !! i) as [c|]; [|discriminate].
  injection Hi as <-. cbn. rewrite score_of_counts.
  apply suffix_alignment_le.
Qed.

Lemma score_at_most_shorter_stem_witness :
  let e := {| path := "/p/out/foo.js"; score := 4 |} in
  e ∈ scored NodePosix.posix "/p/src/foo.ts" ["/p/out/foo.js"; "/p/out/bar.js"]
  /\ (score e <= String.length (removeExt NodePosix.posix "/p/src/foo.ts"))%nat
  /\ (score e <= String.length (removeExt NodePosix.posix (path e)))%nat.
Proof.
  intros e.
  assert (H : e ∈ scored NodePosix.posix "/p/src/foo.ts"
                    ["/p/out/foo.js"; "/p/out/bar.js"])
    by (vm_compute; left).
  split; [exact H|].
  exact (score_at_most_shorter_stem NodePosix.posix "/p/src/foo.ts"
           ["/p/out/foo.js"; "/p/out/bar.js"] e H).
Defined.

(** X9.  When some candidate is the reference path up to the extension,
    the candidate returned ends, extension apart, with the whole reference
    path without its extension. *)
Theorem full_stem_match_is_selected P p ps c :
  c ∈ ps ->
  removeExt P c = removeExt P p ->
  exists t,
    getMostSimilarPath P p ps = Return t
    /\ t ∈ ps
    /\ JsString.chars (removeExt P p) `suffix_of` JsString.chars (removeExt P t).
Proof.
  intros Hc Hstem. rewrite getMostSimilarPath_head.
  destruct (head (JsArray.sort by_score_desc (scored P p ps))) as [h|] eqn:Hh.
  - destruct (sort_head_first_highest _ _ Hh) as (i & Hi & Hmax & _).
    rewrite scored_lookup in Hi.
    destruct (ps !! i) as [t|] eqn:Ht; [|discriminate].
    injection Hi as <-. cbn in Hmax |- *. rewrite score_of_counts in Hmax.
    exists t. split; [reflexivity|].
    split; [apply list_elem_of_lookup; now exists i|].
    apply suffix_alignment_full.
    apply list_elem_of_lookup in Hc as [j Hj].
    assert (Hcj : scored P p ps !! j
                  = Some {| path := c;
                            score := suffix_alignment (removeExt P p)
                                                      (removeExt P c) |}).
    { rewrite scored_lookup, Hj. cbn. now rewrite score_of_counts. }
    specialize (Hmax j _ Hcj). cbn in Hmax.
    rewrite Hstem, suffix_alignment_diag in Hmax.
    pose proof (suffix_alignment_le (removeExt P p) (removeExt P t)) as [Hle _].
    lia.
  - apply sort_head_None in Hh. unfold scored in Hh.
    destruct ps; [inversion Hc | discriminate].
Qed.

Lemma full_stem_match_is_selected_witness :
  let ps := ["/p/out/lib/util.js"; "/p/out/src/main.js"; "/p/src/main.js"] in
  ("/p/src/main.js" ∈ ps
   /\ removeExt NodePosix.posix "/p/src/main.js"
      = removeExt NodePosix.posix "/p/src/main.ts")
  /\ exists t,
       getMostSimilarPath NodePosix.posix "/p/src/main.ts" ps = Return t
       /\ t ∈ ps
       /\ JsString.chars (removeExt NodePosix.posix "/p/src/main.ts")
          `suffix_of` JsString.chars (removeExt NodePosix.posix t).
Proof.
  intros ps.
  assert (H1 : "/p/src/main.js" ∈ ps) by (right; right; left).
  assert (H2 : removeExt NodePosix.posix "/p/src/main.js"
               = removeExt NodePosix.posix "/p/src/main.ts")
    by (vm_compute; reflexivity).
  split; [auto|].
  exact (full_stem_match_is_selected NodePosix.posix "/p/src/main.ts" ps
           "/p/src/main.js" H1 H2).
Defined.

(** * The parsers of [tsc]'s output *)

Section TextFacts.
Import JsText.
Local Open Scope nat_scope.

Lemma trimStart_no_lead s : no_lead (trimStart s).
Proof.
  induction s as [|c s IH]; cbn; [exact I|].
  destruct (is_space c) eqn:Hc; [exact IH | exact Hc].
Qed.

Lemma trimStart_id s : no_lead s -> trimStart s = s.
Proof. destruct s as [|c s]; cbn; [reflexivity|]. now intros ->. Qed.

Lemma trimEnd_no_lead s : no_lead s -> no_lead (trimEnd s).
Proof.
  destruct s as [|c s]; cbn; [exact id|]. intros Hc.
  destruct (trimEnd s); cbn; [now rewrite Hc | exact Hc].
Qed.

Lemma trimEnd_idem s : trimEnd (trimEnd s) = trimEnd s.
Proof.
  induction s as [|c s IH]; cbn; [reflexivity|].
  destruct (trimEnd s) as [|d t] eqn:Ht.
  - destruct (is_space c) eqn:Hc; cbn; [reflexivity | now rewrite Hc].
  - cbn [trimEnd] in IH |- *. now rewrite IH.
Qed.

Lemma trim_idem s : trim (trim s) = trim s.
Proof.
  unfold trim.
  rewrite (trimStart_id (trimEnd (trimStart s)))
    by apply trimEnd_no_lead, trimStart_no_lead.
  apply trimEnd_idem.
Qed.

Lemma trim_no_lead s : no_lead (trim s).
Proof. apply trimEnd_no_lead, trimStart_no_lead. Qed.

Lemma all_space_no_lead s : no_lead s -> all_space s = false.
Proof. destruct s as [|c s]; cbn; [reflexivity|]. now intros ->. Qed.

Lemma trimStart_chars s c : c ∈ JsString.chars (trimStart s) -> c ∈ JsString.chars s.
Proof.
  unfold JsString.chars. induction s as [|a s IH]; cbn; [exact id|].
  destruct (is_space a); [|exact id]. intros H. right. now apply IH.
Qed.

Lemma trimEnd_chars s c : c ∈ JsString.chars (trimEnd s) -> c ∈ JsString.chars s.
Proof.
  unfold JsString.chars. induction s as [|a s IH]; cbn; [exact id|].
  destruct (trimEnd s) as [|d t].
  - destruct (is_space a); cbn; [intros H; inversion H|].
    intros H. apply list_elem_of_singleton in H as ->. left.
  - cbn in IH |- *. intros H. apply elem_of_cons in H as [->|H]; [left|].
    right. now apply IH.
Qed.

Lemma trim_chars s c : c ∈ JsString.chars (trim s) -> c ∈ JsString.chars s.
Proof. intros H. now apply trimStart_chars, trimEnd_chars. Qed.

(** The pieces of a split do not contain the separator. *)
Lemma split_pieces d s piece :
  piece ∈ split d s -> d ∉ JsString.chars piece.
Proof.
  unfold JsString.chars. revert piece.
  induction s as [|c s IH]; cbn; intros piece Hin.
  - apply list_elem_of_singleton in Hin as ->. cbn. apply not_elem_of_nil.
  - destruct (decide (c = d)) as [->|Hne].
    + apply elem_of_cons in Hin as [->|Hin]; [apply not_elem_of_nil | now apply IH].
    + destruct (split d s) as [|first pieces].
      * apply list_elem_of_singleton in Hin as ->. cbn.
        apply not_elem_of_cons. split; [congruence | apply not_elem_of_nil].
      * apply elem_of_cons in Hin as [->|Hin].
        -- cbn. apply not_elem_of_cons. split; [congruence|].
           apply IH. left.
        -- apply IH. now right.
Qed.

Lemma replace_all_chars x y s c :
  c ∈ JsString.chars (replace_all x y s) ->
  c = y \/ (c <> x /\ c ∈ JsString.chars s).
Proof.
  unfold JsString.chars. induction s as [|a s IH]; cbn; intros H; [inversion H|].
  apply elem_of_cons in H as [->|H].
  - destruct (decide (a = x)); [now left|]. right. split; [done | left].
  - destruct (IH H) as [->|[Hne Hin]]; [now left|]. right. split; [done | now right].
Qed.

Section ReplaceKeepsSpace.
Variables x y : ascii.
Hypothesis Hx : is_space x = false.
Hypothesis Hy : is_space y = false.

Lemma replaced_is_space c : is_space (if decide (c = x) then y else c) = is_space c.
Proof. destruct (decide (c = x)) as [->|]; [now rewrite Hx, Hy | reflexivity]. Qed.

Lemma trimStart_replace_all s :
  trimStart (replace_all x y s) = replace_all x y (trimStart s).
Proof.
  induction s as [|c s IH]; cbn; [reflexivity|].
  rewrite replaced_is_space. destruct (is_space c); [exact IH | reflexivity].
Qed.

Lemma trimEnd_replace_all s :
  trimEnd (replace_all x y s) = replace_all x y (trimEnd s).
Proof.
  induction s as [|c s IH]; cbn; [reflexivity|].
  rewrite IH, replaced_is_space.
  destruct (trimEnd s); cbn; [now destruct (is_space c) | reflexivity].
Qed.

Lemma trim_replace_all s : trim (replace_all x y s) = replace_all x y (trim s).
Proof. unfold trim. now rewrite trimStart_replace_all, trimEnd_replace_all. Qed.

Lemma no_lead_replace_all s : no_lead s -> no_lead (replace_all x y s).
Proof. destruct s as [|c s]; cbn; [exact id|]. now rewrite replaced_is_space. Qed.
End ReplaceKeepsSpace.

Lemma sep_char_not_space sep : is_space (sep_char sep) = false.
Proof. now destruct sep. Qed.

Lemma to_sep_trimmed sep s : trim (to_sep sep (trim s)) = to_sep sep (trim s).
Proof.
  unfold to_sep. destruct (decide ("/"%char = sep_char sep)); [apply trim_idem|].
  rewrite trim_replace_all by (reflexivity || apply sep_char_not_space).
  now rewrite trim_idem.
Qed.

Lemma to_sep_no_lead sep s : no_lead s -> no_lead (to_sep sep s).
Proof.
  unfold to_sep. destruct (decide ("/"%char = sep_char sep)); [exact id|].
  apply no_lead_replace_all; [reflexivity | apply sep_char_not_space].
Qed.

Lemma to_sep_chars sep s c :
  c ∈ JsString.chars (to_sep sep s) ->
  c = sep_char sep \/ c ∈ JsString.chars s.
Proof.
  unfold to_sep. destruct (decide ("/"%char = sep_char sep)); [now right|].
  intros H. apply replace_all_chars in H. tauto.
Qed.

Lemma to_sep_no_slash s :
  "/"%char ∉ JsString.chars (to_sep SepBackslash s).
Proof.
  unfold to_sep. cbn. intros H. apply replace_all_chars in H as [H|[H _]]; done.
Qed.

(** The test [/^\s+$/] rejects nothing that has been trimmed. *)
Lemma kept_after_trim sep done s :
  kept done (to_sep sep (trim s)) = existsSync done (to_sep sep (trim s)).
Proof.
  unfold kept. now rewrite all_space_no_lead by apply to_sep_no_lead, trim_no_lead.
Qed.
End TextFacts.

Section ParserFacts.
Import JsText.
Local Open Scope nat_scope.

Lemma filter_kept_after_trim sep done (texts : list string) :
  List.filter (kept done) (map (fun text => to_sep sep (trim text)) texts)
  = List.filter (existsSync done) (map (fun text => to_sep sep (trim text)) texts).
Proof.
  induction texts as [|t texts IH]; cbn; [reflexivity|].
  rewrite kept_after_trim, IH. reflexivity.
Qed.

Lemma fold_push_TSFILE texts filtered :
  fold_left push_TSFILE texts filtered
  = (filtered
     ++ map (fun text => trim (substring_from 7 (trim text)))
          (List.filter (fun text => starts_with "TSFILE:" (trim text)) texts))%list.
Proof.
  revert filtered. induction texts as [|t texts IH]; intros filtered; cbn.
  - now rewrite app_nil_r.
  - rewrite IH. unfold push_TSFILE at 1.
    destruct (starts_with "TSFILE:" (trim t)); cbn; [|reflexivity].
    now rewrite <- app_assoc.
Qed.

Lemma split_app_sep d p rest :
  d ∉ JsString.chars p ->
  split d (p ++ String d rest) = p :: split d rest.
Proof.
  unfold JsString.chars. induction p as [|c p IH]; simpl; intros Hd.
  - destruct (decide (d = d)); [reflexivity | done].
  - apply not_elem_of_cons in Hd as [Hne Hd].
    destruct (decide (c = d)); [congruence|]. now rewrite IH.
Qed.

Lemma trimStart_all_space w :
  forallb is_space (JsString.chars w) = true -> trimStart w = "".
Proof.
  unfold JsString.chars. induction w as [|c w IH]; cbn; [reflexivity|].
  intros H. apply andb_prop in H as [-> H]. now apply IH.
Qed.

Lemma trimEnd_all_space w :
  forallb is_space (JsString.chars w) = true -> trimEnd w = "".
Proof.
  unfold JsString.chars. induction w as [|c w IH]; cbn; [reflexivity|].
  intros H. apply andb_prop in H as [-> H]. now rewrite IH.
Qed.

Lemma append_nil_l (b : string) : "" ++ b = b.
Proof. reflexivity. Qed.

Lemma append_cons c (a b : string) : String c a ++ b = String c (a ++ b).
Proof. reflexivity. Qed.

Lemma append_assoc (a b c : string) : (a ++ b) ++ c = a ++ b ++ c.
Proof.
  induction a as [|x a IH]; [reflexivity|].
  rewrite !append_cons. now rewrite IH.
Qed.

Lemma chars_app (a b : string) :
  JsString.chars (a ++ b) = (JsString.chars a ++ JsString.chars b)%list.
Proof.
  unfold JsString.chars. induction a as [|x a IH]; [reflexivity|].
  rewrite append_cons. cbn. now rewrite IH.
Qed.

Lemma trimEnd_app a b :
  trimEnd (a ++ b)
  = match trimEnd b with
    | EmptyString => trimEnd a
    | t => a ++ t
    end.
Proof.
  induction a as [|c a IH].
  - rewrite append_nil_l. destruct (trimEnd b); reflexivity.
  - rewrite append_cons. cbn [trimEnd]. rewrite IH.
    destruct (trimEnd b) as [|d t]; [reflexivity|].
    destruct a; reflexivity.
Qed.

Lemma trimmed_parts p :
  trim p = p -> no_lead p /\ trimStart p = p /\ trimEnd p = p.
Proof.
  intros H. assert (Hn : no_lead p) by (rewrite <- H; apply trim_no_lead).
  split; [exact Hn|]. split; [now apply trimStart_id|].
  unfold trim in H. now rewrite (trimStart_id p Hn) in H.
Qed.

Lemma trimStart_app_no_lead a x :
  no_lead a -> a <> "" -> trimStart (a ++ x) = a ++ x.
Proof.
  destruct a as [|c a]; [done|].
  rewrite append_cons. cbn. now intros ->.
Qed.

Lemma trim_app_space p w :
  trim p = p ->
  forallb is_space (JsString.chars w) = true ->
  trim (p ++ w) = p.
Proof.
  intros Hp Hw. destruct (trimmed_parts p Hp) as (Hn & _ & He).
  unfold trim. destruct (decide (p = "")) as [->|Hne].
  - rewrite append_nil_l. now rewrite trimStart_all_space.
  - rewrite trimStart_app_no_lead by assumption.
    now rewrite trimEnd_app, trimEnd_all_space.
Qed.

Lemma substring_from_app a x :
  substring_from (String.length a) (a ++ x) = x.
Proof.
  unfold substring_from. induction a as [|c a IH].
  - rewrite append_nil_l. cbn. rewrite Nat.sub_0_r. apply (substring0_all x).
  - rewrite append_cons. cbn. exact IH.
Qed.

Lemma starts_with_app a x : starts_with a (a ++ x) = true.
Proof.
  unfold starts_with. induction a as [|c a IH].
  - rewrite append_nil_l. now destruct x.
  - rewrite append_cons. cbn. destruct (ascii_dec c c); [exact IH | congruence].
Qed.
End ParserFacts.

(** X10.  Every path that [getListFiles] resolves with exists on disk, has
    no white space at either end and no line feed inside, and, where the
    separator is the backslash, no forward slash. *)
Theorem listFiles_paths_are_clean sep done p :
  p ∈ listFiles_paths sep done ->
  existsSync done p = true
  /\ JsText.trim p = p
  /\ (JsText.LF ∉ JsString.chars p)
  /\ (sep = SepBackslash -> "/"%char ∉ JsString.chars p).
Proof.
  unfold listFiles_paths. rewrite filter_kept_after_trim.
  intros Hp. apply list_elem_of_In, filter_In in Hp as [Hp Hex].
  apply in_map_iff in Hp as (text & <- & Htext).
  apply list_elem_of_In in Htext.
  split; [exact Hex|]. split; [apply to_sep_trimmed|]. split.
  - intros HLF. apply to_sep_chars in HLF as [HLF|HLF].
    + destruct sep; discriminate HLF.
    + apply trim_chars in HLF. now apply (split_pieces _ _ _ Htext).
  - intros ->. apply to_sep_no_slash.
Qed.

Lemma listFiles_paths_are_clean_witness :
  let done := {| stdout := printed (String JsText.CR "")
                             ["/p/src/a.ts"; "/p/missing.ts"; "  /p/out/b.js"];
                 existsSync := SampleHost.on_disk |} in
  "/p/out/b.js" ∈ listFiles_paths SepSlash done
  /\ existsSync done "/p/out/b.js" = true
  /\ JsText.trim "/p/out/b.js" = "/p/out/b.js"
  /\ (JsText.LF ∉ JsString.chars "/p/out/b.js")
  /\ (SepSlash = SepBackslash -> "/"%char ∉ JsString.chars "/p/out/b.js").
Proof.
  intros done.
  assert (H : "/p/out/b.js" ∈ listFiles_paths SepSlash done)
    by (vm_compute; right; left).
  split; [exact H|].
  exact (listFiles_paths_are_clean SepSlash done "/p/out/b.js" H).
Defined.

(** X11.  [getListFiles] reads back what [tsc] printed: for lines that
    each are a path without white space at its ends and without a line
    feed, followed by white space (such as a carriage return) and a line
    feed, the result is the list of these paths with the separators
    converted, provided each converted path exists and the empty path does
    not. *)
Theorem listFiles_reads_back sep exists_ pad ps :
  forallb JsText.is_space (JsString.chars pad) = true ->
  JsText.LF ∉ JsString.chars pad ->
  exists_ "" = false ->
  (forall p, p ∈ ps ->
     JsText.trim p = p /\ (JsText.LF ∉ JsString.chars p)
     /\ exists_ (to_sep sep p) = true) ->
  listFiles_paths sep {| stdout := printed pad ps; existsSync := exists_ |}
  = map (to_sep sep) ps.
Proof.
  intros Hpad HpadLF Hempty Hps.
  unfold listFiles_paths. rewrite filter_kept_after_trim. cbn [stdout existsSync].
  induction ps as [|p ps IH].
  - cbn. replace (to_sep sep "") with "" by (unfold to_sep; now case_decide).
    now rewrite Hempty.
  - destruct (Hps p) as (Htrim & HLF & Hex); [left|].
    cbn [printed fold_right]. fold (printed pad ps).
    rewrite <- append_assoc, split_app_sep.
    + cbn [map List.filter]. rewrite trim_app_space by assumption.
      rewrite Hex. f_equal. apply IH. intros q Hq. apply Hps. now right.
    + rewrite chars_app.
      intros Hin. apply elem_of_app in Hin as [Hin|Hin]; done.
Qed.

Lemma listFiles_reads_back_witness :
  let pad := String JsText.CR "" in
  let ps := ["C:/p/src/a.ts"; "C:/p/src/b.ts"] in
  let exists_ := fun file => bool_decide (file ∈ ["C:\p\src\a.ts"; "C:\p\src\b.ts"]) in
  (forallb JsText.is_space (JsString.chars pad) = true
   /\ (JsText.LF ∉ JsString.chars pad)
   /\ exists_ "" = false
   /\ (forall p, p ∈ ps ->
         JsText.trim p = p /\ (JsText.LF ∉ JsString.chars p)
         /\ exists_ (to_sep SepBackslash p) = true))
  /\ listFiles_paths SepBackslash
       {| stdout := printed pad ps; existsSync := exists_ |}
     = map (to_sep SepBackslash) ps.
Proof.
  intros pad ps exists_.
  assert (H1 : forallb JsText.is_space (JsString.chars pad) = true) by reflexivity.
  assert (H2 : JsText.LF ∉ JsString.chars pad)
    by (intros H; apply list_elem_of_singleton in H; discriminate H).
  assert (H3 : exists_ "" = false) by reflexivity.
  assert (H4 : forall p, p ∈ ps ->
             JsText.trim p = p /\ (JsText.LF ∉ JsString.chars p)
             /\ exists_ (to_sep SepBackslash p) = true).
  { intros p Hp. apply elem_of_cons in Hp as [->|Hp];
      [|apply list_elem_of_singleton in Hp as ->];
      (split; [reflexivity|]; split; [|reflexivity]);
      intros H; apply list_elem_of_In in H; cbn in H;
      repeat (destruct H as [H|H]; [discriminate H|]); exact H. }
  split; [auto|].
  exact (listFiles_reads_back SepBackslash exists_ pad ps H1 H2 H3 H4).
Defined.

(** X12.  [compileWithEmittedFiles] resolves with exactly the existing
    paths announced by the lines that, trimmed, begin with [TSFILE:], in
    the order printed: each such line gives the text after the mark,
    trimmed and with the separators converted; no other line contributes,
    and the test for white space rejects nothing. *)
Theorem emittedFiles_paths_are_marked_lines sep done :
  emittedFiles_paths sep done
  = List.filter (existsSync done)
      (map (fun text =>
              to_sep sep (JsText.trim
                (JsText.substring_from 7 (JsText.trim text))))
           (List.filter (fun text => JsText.starts_with "TSFILE:" (JsText.trim text))
                        (JsText.split JsText.LF (stdout done)))).
Proof.
  unfold emittedFiles_paths. rewrite fold_push_TSFILE. cbn [app].
  rewrite map_map.
  induction (List.filter
               (fun text => JsText.starts_with "TSFILE:" (JsText.trim text))
               (JsText.split JsText.LF (stdout done))) as [|t ts IH];
    cbn; [reflexivity|].
  rewrite kept_after_trim, IH. reflexivity.
Qed.

Lemma filter_all {A} (f : A -> bool) (l : list A) :
  (forall x, x ∈ l -> f x = true) -> List.filter f l = l.
Proof.
  induction l as [|x l IH]; intros H; cbn; [reflexivity|].
  rewrite (H x) by left. f_equal. apply IH. intros y Hy. apply H. now right.
Qed.

Lemma push_TSFILE_line filtered p pad :
  JsText.trim p = p ->
  forallb JsText.is_space (JsString.chars pad) = true ->
  push_TSFILE filtered ("TSFILE: " ++ p ++ pad) = (filtered ++ [p])%list.
Proof.
  intros Hp Hpad. destruct (trimmed_parts p Hp) as (Hn & Hs & He).
  assert (Htrim : JsText.trim ("TSFILE: " ++ p ++ pad)
                  = "TSFILE:" ++ (if decide (p = "") then "" else " " ++ p)).
  { unfold JsText.trim.
    rewrite (trimStart_app_no_lead "TSFILE: ") by done.
    change ("TSFILE: " ++ p ++ pad) with ("TSFILE:" ++ " " ++ p ++ pad).
    rewrite (trimEnd_app "TSFILE:"), (trimEnd_app " "), (trimEnd_app p).
    rewrite trimEnd_all_space by exact Hpad. rewrite He.
    destruct p as [|c p]; [reflexivity|].
    rewrite decide_False by discriminate. reflexivity. }
  unfold push_TSFILE. rewrite Htrim, starts_with_app.
  change (String.length "TSFILE:") with (String.length "TSFILE:").
  rewrite (substring_from_app "TSFILE:"). f_equal. f_equal.
  destruct (decide (p = "")) as [->|Hne]; [reflexivity|].
  unfold JsText.trim. rewrite append_cons, append_nil_l. cbn [JsText.trimStart].
  change (JsText.is_space " ") with true. cbn iota.
  now rewrite Hs.
Qed.

(** X13.  [compileWithEmittedFiles] reads back what [tsc] printed: for
    lines [TSFILE: p], each followed by white space and a line feed, with
    [p] free of white space at its ends and of line feeds, the result is
    the list of the paths [p] with the separators converted, provided
    each converted path exists. *)
Theorem emittedFiles_reads_back sep exists_ pad ps :
  forallb JsText.is_space (JsString.chars pad) = true ->
  JsText.LF ∉ JsString.chars pad ->
  (forall p, p ∈ ps ->
     JsText.trim p = p /\ (JsText.LF ∉ JsString.chars p)
     /\ exists_ (to_sep sep p) = true) ->
  emittedFiles_paths sep
    {| stdout := printed pad (map (fun p => "TSFILE: " ++ p) ps);
       existsSync := exists_ |}
  = map (to_sep sep) ps.
Proof.
  intros Hpad HpadLF Hps.
  unfold emittedFiles_paths. cbn [stdout].
  assert (Hfold : forall filtered,
            fold_left push_TSFILE
              (JsText.split JsText.LF
                 (printed pad (map (fun p => "TSFILE: " ++ p) ps))) filtered
            = (filtered ++ ps)%list).
  { induction ps as [|p ps IH]; intros filtered.
    - cbn. now rewrite app_nil_r.
    - destruct (Hps p) as (Htrim & HLF & _); [left|].
      cbn [map printed fold_right].
      fold (printed pad (map (fun p => "TSFILE: " ++ p) ps)).
      rewrite <- append_assoc, split_app_sep.
      + cbn [fold_left]. rewrite append_assoc.
        rewrite push_TSFILE_line by assumption.
        rewrite IH by (intros q Hq; apply Hps; now right).
        now rewrite <- app_assoc.
      + rewrite !chars_app.
        intros Hin. apply elem_of_app in Hin as [Hin|Hin]; [|done].
        apply elem_of_app in Hin as [Hin|Hin]; [|done].
        apply list_elem_of_In in Hin. cbn in Hin.
        repeat (destruct Hin as [Hin|Hin]; [discriminate Hin|]). exact Hin. }
  rewrite Hfold. cbn [app].
  apply filter_all. intros x Hx.
  apply list_elem_of_In, in_map_iff in Hx as (p & <- & Hp).
  destruct (Hps p) as (Htrim & _ & Hex); [now apply list_elem_of_In|].
  rewrite <- Htrim at 1. now rewrite kept_after_trim, Htrim.
Qed.

Lemma emittedFiles_reads_back_witness :
  let pad := String JsText.CR "" in
  let ps := ["/p/out/a.js"; "/p/out/b.js"] in
  (forallb JsText.is_space (JsString.chars pad) = true
   /\ (JsText.LF ∉ JsString.chars pad)
   /\ (forall p, p ∈ ps ->
         JsText.trim p = p /\ (JsText.LF ∉ JsString.chars p)
         /\ SampleHost.on_disk (to_sep SepSlash p) = true))
  /\ emittedFiles_paths SepSlash
       {| stdout := printed pad (map (fun p => "TSFILE: " ++ p) ps);
          existsSync := SampleHost.on_disk |}
     = map (to_sep SepSlash) ps.
Proof.
  intros pad ps.
  assert (H1 : forallb JsText.is_space (JsString.chars pad) = true) by reflexivity.
  assert (H2 : JsText.LF ∉ JsString.chars pad)
    by (intros H; apply list_elem_of_singleton in H; discriminate H).
  assert (H3 : forall p, p ∈ ps ->
             JsText.trim p = p /\ (JsText.LF ∉ JsString.chars p)
             /\ SampleHost.on_disk (to_sep SepSlash p) = true).
  { intros p Hp. apply elem_of_cons in Hp as [->|Hp];
      [|apply list_elem_of_singleton in Hp as ->];
      (split; [reflexivity|]; split; [|reflexivity]);
      intros H; apply list_elem_of_In in H; cbn in H;
      repeat (destruct H as [H|H]; [discriminate H|]); exact H. }
  split; [auto|].
  exact (emittedFiles_reads_back SepSlash SampleHost.on_disk pad ps H1 H2 H3).
Defined.

(** * Finding After Effects *)

Section LookupFacts.
Import JsText.
Local Open Scope nat_scope.

Lemma split_lines_not_nil s : split_lines s <> [].
Proof.
  destruct s as [|c s]; cbn; [discriminate|].
  destruct (decide (c = CR)).
  - destruct s as [|c' s]; [discriminate|]. now destruct (decide (c' = LF)).
  - destruct (decide (c = LF)); [discriminate|].
    now destruct (split_lines s).
Qed.

(** The pieces of [split_lines] contain no line terminator, and all of
    them are empty exactly when the text consists of line terminators. *)
Lemma split_lines_facts n s :
  String.length s <= n ->
  (forall piece, piece ∈ split_lines s ->
     forallb (fun c => negb (is_terminator c)) (JsString.chars piece) = true)
  /\ (List.filter (fun piece => negb (bool_decide (piece = "")))
        (split_lines s) = []
      <-> forallb is_terminator (JsString.chars s) = true).
Proof.
  unfold JsString.chars. revert s. induction n as [|n IH]; intros s Hlen.
  - destruct s; [|cbn in Hlen; lia]. cbn. split; [|tauto].
    intros piece Hin. now apply list_elem_of_singleton in Hin as ->.
  - destruct s as [|c s]; [cbn; split; [|tauto];
      intros piece Hin; now apply list_elem_of_singleton in Hin as ->|].
    cbn in Hlen. cbn [split_lines].
    destruct (decide (c = CR)) as [->|HCR].
    + destruct s as [|c' s].
      * cbn. split; [|tauto]. intros piece Hin.
        apply elem_of_cons in Hin as [->|Hin]; [reflexivity|].
        now apply list_elem_of_singleton in Hin as ->.
      * cbn in Hlen. destruct (decide (c' = LF)) as [->|HLF].
        -- destruct (IH s ltac:(lia)) as [IH1 IH2]. split.
           ++ intros piece Hin.
              apply elem_of_cons in Hin as [->|Hin]; [reflexivity | now apply IH1].
           ++ cbn. exact IH2.
        -- destruct (IH (String c' s) ltac:(cbn; lia)) as [IH1 IH2]. split.
           ++ intros piece Hin.
              apply elem_of_cons in Hin as [->|Hin]; [reflexivity | now apply IH1].
           ++ cbn [List.filter bool_decide negb]. cbn in IH2 |- *. exact IH2.
    + destruct (decide (c = LF)) as [->|HLF].
      * destruct (IH s ltac:(lia)) as [IH1 IH2]. split.
        -- intros piece Hin.
           apply elem_of_cons in Hin as [->|Hin]; [reflexivity | now apply IH1].
        -- cbn. exact IH2.
      * destruct (IH s ltac:(lia)) as [IH1 _].
        assert (Hc : is_terminator c = false).
        { unfold is_terminator.
          now rewrite !bool_decide_eq_false_2 by assumption. }
        destruct (split_lines s) as [|piece pieces] eqn:Hs;
          [now apply split_lines_not_nil in Hs|].
        split.
        -- intros q Hin. apply elem_of_cons in Hin as [->|Hin].
           ++ cbn. rewrite Hc. cbn. apply IH1. left.
           ++ apply IH1. now right.
        -- cbn. rewrite Hc. cbn. split; discriminate.
Qed.

Lemma split_lines_first p rest :
  forallb (fun c => negb (is_terminator c)) (JsString.chars p) = true ->
  split_lines (p ++ String CR (String LF rest)) = p :: split_lines rest.
Proof.
  unfold JsString.chars. induction p as [|c p IH]; intros Hp.
  - reflexivity.
  - cbn in Hp. apply andb_prop in Hp as [Hc Hp].
    unfold is_terminator in Hc. apply negb_true_iff, orb_false_iff in Hc as [H1 H2].
    apply bool_decide_eq_false in H1, H2.
    rewrite append_cons. cbn [split_lines].
    rewrite !decide_False by assumption. now rewrite IH.
Qed.
End LookupFacts.

(** X14.  When the lookup resolves, it resolves with a line of the
    PowerShell output that is not empty and holds neither a carriage
    return nor a line feed. *)
Theorem first_AfterFX_is_a_line output aePath :
  first_AfterFX output = Done aePath ->
  aePath ∈ JsText.split_lines output
  /\ aePath <> ""
  /\ forallb (fun c => negb (is_terminator c)) (JsString.chars aePath) = true.
Proof.
  unfold first_AfterFX.
  destruct (List.filter _ (JsText.split_lines output)) as [|first rest] eqn:Hf;
    [discriminate|].
  intros [= <-].
  assert (Hin : In first (List.filter
                  (fun aePath => negb (bool_decide (aePath = "")))
                  (JsText.split_lines output))) by (rewrite Hf; now left).
  apply filter_In in Hin as [Hin Hne]. apply list_elem_of_In in Hin.
  split; [exact Hin|]. split.
  - apply negb_true_iff, bool_decide_eq_false in Hne. exact Hne.
  - now apply (proj1 (split_lines_facts _ output (le_n _))).
Qed.

Lemma first_AfterFX_is_a_line_witness :
  let output := ("C:\AE\AfterFX.exe" ++ String JsText.CR (String JsText.LF ""))%string in
  first_AfterFX output = Done "C:\AE\AfterFX.exe"
  /\ "C:\AE\AfterFX.exe" ∈ JsText.split_lines output
  /\ "C:\AE\AfterFX.exe" <> ""
  /\ forallb (fun c => negb (is_terminator c))
       (JsString.chars "C:\AE\AfterFX.exe") = true.
Proof.
  intros output.
  assert (H : first_AfterFX output = Done "C:\AE\AfterFX.exe")
    by (vm_compute; reflexivity).
  split; [exact H|].
  exact (first_AfterFX_is_a_line output "C:\AE\AfterFX.exe" H).
Defined.

(** X15.  The lookup [findAePathWin32] is rejected in two ways and no
    other: by the ['error'] event of the PowerShell process, with the error
    object handed over; or, the process having exited, exactly when it
    printed nothing but line terminators (in particular nothing at all),
    and then with the message to launch After Effects. *)
Theorem findAePathWin32_rejections ps e :
  findAePathWin32_settles ps = Raise e
  <-> (ps = SpawnError /\ e = Foreign)
      \/ (exists output,
            ps = Exited output
            /\ forallb is_terminator (JsString.chars output) = true
            /\ e = Inner (Rejection "Please launch After Effects.")).
Proof.
  destruct ps as [|output]; cbn [findAePathWin32_settles].
  - split.
    + intros [= <-]. now left.
    + intros [[_ ->]|(output & Hps & _)]; [reflexivity | discriminate Hps].
  - pose proof (proj2 (split_lines_facts _ output (le_n _))) as Hiff.
    unfold first_AfterFX.
    destruct (List.filter _ (JsText.split_lines output)) as [|first rest].
    + split.
      * intros [= <-]. right. exists output.
        split; [reflexivity|]. split; [now apply Hiff | reflexivity].
      * intros [[Hps _]|(output' & _ & _ & ->)]; [discriminate Hps | reflexivity].
    + split; [discriminate|].
      intros [[Hps _]|(output' & [= <-] & Hblank & _)]; [discriminate Hps|].
      apply Hiff in Hblank. discriminate Hblank.
Qed.

Lemma findAePathWin32_rejections_witness :
  let output := String JsText.CR (String JsText.LF "") in
  let e := Inner (Rejection "Please launch After Effects.") in
  ((Exited output = SpawnError /\ e = Foreign)
   \/ (exists output',
         Exited output = Exited output'
         /\ forallb is_terminator (JsString.chars output') = true
         /\ e = Inner (Rejection "Please launch After Effects.")))
  /\ findAePathWin32_settles (Exited output) = Raise e.
Proof.
  intros output e.
  assert (H : (Exited output = SpawnError /\ e = Foreign)
              \/ (exists output',
                    Exited output = Exited output'
                    /\ forallb is_terminator (JsString.chars output') = true
                    /\ e = Inner (Rejection "Please launch After Effects.")))
    by (right; exists output; repeat split; reflexivity).
  split; [exact H|].
  exact (proj2 (findAePathWin32_rejections (Exited output) e) H).
Defined.

(** X16.  When the output begins with a line that is not empty and ends in
    CR LF, the lookup resolves with that line, whatever follows: of several
    running instances the first one printed is taken. *)
Theorem first_AfterFX_takes_first_line aePath rest :
  aePath <> "" ->
  forallb (fun c => negb (is_terminator c)) (JsString.chars aePath) = true ->
  first_AfterFX (aePath ++ String JsText.CR (String JsText.LF rest))
  = Done aePath.
Proof.
  intros Hne Hclean. unfold first_AfterFX.
  rewrite split_lines_first by exact Hclean. cbn [List.filter].
  now rewrite bool_decide_eq_false_2 by exact Hne.
Qed.

Lemma first_AfterFX_takes_first_line_witness :
  let rest := ("D:\AE 2\AfterFX.exe" ++ String JsText.CR (String JsText.LF ""))%string in
  ("C:\AE\AfterFX.exe" <> ""
   /\ forallb (fun c => negb (is_terminator c))
        (JsString.chars "C:\AE\AfterFX.exe") = true)
  /\ first_AfterFX ("C:\AE\AfterFX.exe"
                    ++ String JsText.CR (String JsText.LF rest))
     = Done "C:\AE\AfterFX.exe".
Proof.
  intros rest.
  assert (H1 : "C:\AE\AfterFX.exe" <> "") by discriminate.
  assert (H2 : forallb (fun c => negb (is_terminator c))
                 (JsString.chars "C:\AE\AfterFX.exe") = true) by reflexivity.
  split; [auto|].
  exact (first_AfterFX_takes_first_line "C:\AE\AfterFX.exe" rest H1 H2).
Defined.

(** * The command *)

Section CommandFacts.
Variable P : PathModule.
Variable host : Host.

Lemma filter_effect_External tr :
  List.filter is_effect (map External tr) = [].
Proof. induction tr as [|e tr IH]; cbn; [reflexivity | exact IH]. Qed.

Lemma External_not_effect a tr :
  a ∈ map External tr -> is_effect a = false.
Proof.
  intros Hin. apply list_elem_of_In, in_map_iff in Hin as (e & <- & _).
  reflexivity.
Qed.

(** What [fileIsListed] can throw. *)
Lemma fileIsListed_throws env fileName configPath s e :
  outcome (fileIsListed P env fileName configPath s) = Throw e ->
  e = SystemError \/ e = Rejection "tsc isn't found".
Proof.
  rewrite fileIsListed_run.
  destruct (stat_mtimeMs env configPath) as [m|]; [|intros [= <-]; now left].
  destruct (decide (cache_hit s fileName configPath m)); [discriminate|].
  destruct (tsc_listFiles env (path_dirname P configPath));
    [discriminate | intros [= <-]; now right].
Qed.

(** [getMostSimilarPath] returns one of its candidates, and returns
    whenever it has one. *)
Lemma getMostSimilarPath_returns p ps :
  ps <> [] ->
  exists t, getMostSimilarPath P p ps = Return t /\ t ∈ ps.
Proof.
  intros Hne. rewrite getMostSimilarPath_head.
  destruct (head (JsArray.sort by_score_desc (scored P p ps))) as [h|] eqn:Hh.
  - destruct (sort_head_first_highest _ _ Hh) as (i & Hi & _).
    rewrite scored_lookup in Hi.
    destruct (ps !! i) as [t|] eqn:Ht; [|discriminate].
    injection Hi as <-. exists t. split; [reflexivity|].
    apply list_elem_of_lookup. now exists i.
  - apply sort_head_None in Hh. unfold scored in Hh.
    destruct ps; [done | discriminate].
Qed.

Lemma getMostSimilarPath_single p only :
  getMostSimilarPath P p [only] = Return only.
Proof. reflexivity. Qed.

Lemma emittedFiles_path_exists sep done p :
  p ∈ emittedFiles_paths sep done -> existsSync done p = true.
Proof.
  unfold emittedFiles_paths. intros Hp.
  apply list_elem_of_In, filter_In in Hp as [_ Hp].
  unfold kept in Hp. now destruct (JsText.all_space p).
Qed.
End CommandFacts.

Ltac command_cases :=
  unfold command, command_try, findAePath, findConfig, compileWithEmittedFiles,
    runScript, lift, of_outcome, perform, cmd_bind, cmd_ret, cmd_raise in *;
  repeat (cbn [completion store actions] in *; case_match; simplify_eq);
  cbn [completion store actions] in *; simplify_eq.

Ltac split_membership H :=
  repeat match type of H with
  | _ ∈ (_ ++ _)%list => apply elem_of_app in H as [H|H]
  | _ ∈ _ :: _ => apply elem_of_cons in H as [H|H]
  | _ ∈ [] => inversion H
  | _ ∈ map External _ => apply External_not_effect in H; discriminate H
  end.

Lemma first_AfterFX_raises output e :
  first_AfterFX output = Raise e ->
  e = Inner (Rejection "Please launch After Effects.").
Proof.
  unfold first_AfterFX. destruct (List.filter _ _); [|discriminate].
  now intros [= <-].
Qed.

Lemma findAePathWin32_raises ps e :
  findAePathWin32_settles ps = Raise e ->
  e = Foreign \/ e = Inner (Rejection "Please launch After Effects.").
Proof.
  destruct ps as [|output]; cbn.
  - intros [= <-]. now left.
  - intros H. right. now apply first_AfterFX_raises in H.
Qed.

Lemma returned_candidate P p ps t :
  ps <> [] -> getMostSimilarPath P p ps = Return t -> t ∈ ps.
Proof.
  intros Hne Hret. destruct (getMostSimilarPath_returns P p ps Hne) as (t' & H & Hin).
  congruence.
Qed.

(** X17.  One run of the command hands at most one script to After
    Effects or shows at most one warning, never both. *)
Theorem one_effect_at_most P host s :
  (length (List.filter is_effect (actions (command P host s))) <= 1)%nat.
Proof.
  command_cases;
    rewrite ?List.filter_app, ?filter_effect_External; cbn; lia.
Qed.

(** X18.  Whatever the command hands to After Effects is the file of the
    active editor or a file that the compilation reported as emitted and
    that exists on disk; it is run with the path of After Effects that the
    lookup resolved with. *)
Theorem runs_active_file_or_emitted_file P host s command_line :
  Exec command_line ∈ actions (command P host s) ->
  exists fileName aePath target,
    activeTextEditor host = Some fileName
    /\ findAePathWin32_settles (powershell host) = Done aePath
    /\ command_line = runScript_command aePath target
    /\ (target = fileName
        \/ exists cwd done,
             child_process_exec host "tsc --listEmittedFiles" cwd = Some done
             /\ target ∈ emittedFiles_paths (path_sep host) done
             /\ existsSync done target = true).
Proof.
  intros Hin. command_cases; split_membership Hin; simplify_eq.
  all: match goal with
       | |- exists _ _ _, Some ?f = _ /\ _ /\ runScript_command ?a ?t = _ /\ _ =>
           exists f, a, t; split; [reflexivity|]; split; [assumption|];
           split; [reflexivity|]
       end.
  all: try (now left).
  all: right;
    match goal with
    | H : child_process_exec _ _ ?cwd = Some ?done |- _ =>
        exists cwd, done; split; [exact H|]
    end;
    match goal with
    | |- ?t ∈ ?l /\ _ =>
        assert (Ht : t ∈ l); [|split; [exact Ht | now apply emittedFiles_path_exists in Ht]]
    end.
  - match goal with H : emittedFiles_paths _ _ = _ |- _ => rewrite H end. left.
  - match goal with H : emittedFiles_paths _ _ = _ |- _ => rewrite H in * end.
    eapply returned_candidate; [|eassumption]. discriminate.
Qed.

Lemma runs_active_file_or_emitted_file_witness :
  let host := SampleHost.editing "/p/src/a.ts" in
  let command_line := runScript_command SampleHost.aePath "/p/out/a.js" in
  Exec command_line ∈ actions (command NodePosix.posix host initial)
  /\ exists fileName aePath target,
       activeTextEditor host = Some fileName
       /\ findAePathWin32_settles (powershell host) = Done aePath
       /\ command_line = runScript_command aePath target
       /\ (target = fileName
           \/ exists cwd done,
                child_process_exec host "tsc --listEmittedFiles" cwd = Some done
                /\ target ∈ emittedFiles_paths (path_sep host) done
                /\ existsSync done target = true).
Proof.
  intros host command_line.
  assert (H : Exec command_line ∈ actions (command NodePosix.posix host initial)).
  { apply list_elem_of_In. vm_compute. do 5 right. now left. }
  split; [exact H|].
  exact (runs_active_file_or_emitted_file NodePosix.posix host initial
           command_line H).
Defined.

(** X19.  The warnings the command can show: the platform is not
    supported, After Effects is not running, PowerShell or a library
    failed, no [tsconfig.json] was found, the configuration could not be
    read, or [tsc] could not list the files.  The [TypeError] of
    [getMostSimilarPath] is not among them: the function is only called
    with two candidates or more. *)
Theorem warnings_shown P host s e :
  ShowWarning e ∈ actions (command P host s) ->
  e = ErrorObject (process_platform host ++ " isn't supported")
  \/ e = Inner (Rejection "Please launch After Effects.")
  \/ e = Foreign
  \/ e = ErrorObject "Unable to find tsconfig.json"
  \/ e = Inner SystemError
  \/ e = Inner (Rejection "tsc isn't found").
Proof.
  intros Hin. command_cases; split_membership Hin; simplify_eq; auto 10.
  all: try match goal with
       | H : findAePathWin32_settles _ = Raise _ |- _ =>
           apply findAePathWin32_raises in H as [->| ->]; auto 10
       | H : outcome (fileIsListed _ _ _ _ _) = Throw _ |- _ =>
           apply fileIsListed_throws in H as [->| ->]; auto 10
       end.
  all: exfalso;
    match goal with
    | H : getMostSimilarPath ?P ?p ?ps = Throw _ |- _ =>
        destruct (getMostSimilarPath_returns P p ps) as (t & Ht & _);
          [discriminate | congruence]
    end.
Qed.

Lemma warnings_shown_witness :
  let host := SampleHost.editing "/q/zz.ts" in
  let e := ErrorObject "Unable to find tsconfig.json" in
  ShowWarning e ∈ actions (command NodePosix.posix host initial)
  /\ (e = ErrorObject (process_platform host ++ " isn't supported")
      \/ e = Inner (Rejection "Please launch After Effects.")
      \/ e = Foreign
      \/ e = ErrorObject "Unable to find tsconfig.json"
      \/ e = Inner SystemError
      \/ e = Inner (Rejection "tsc isn't found")).
Proof.
  intros host e.
  assert (H : ShowWarning e ∈ actions (command NodePosix.posix host initial)).
  { apply list_elem_of_In. vm_compute. do 2 right. now left. }
  split; [exact H|].
  exact (warnings_shown NodePosix.posix host initial e H).
Defined.

Ltac unify_facts :=
  repeat match goal with
  | H1 : ?x = ?a, H2 : ?x = ?b |- _ =>
      rewrite H1 in H2; simplify_eq
  end.

Lemma ext_not_jsxbin ext :
  ext ∈ [".js"; ".jsx"; ".ts"; ".tsx"] -> ext <> ".jsxbin".
Proof.
  intros Hext E. rewrite E in Hext. apply list_elem_of_In in Hext. cbn in Hext.
  repeat (destruct Hext as [Hext|Hext]; [discriminate Hext|]). exact Hext.
Qed.

(** X20.  When After Effects cannot be found the command shows that as a
    warning and does nothing else, whatever the file: it does not look for
    a configuration, does not run [tsc], runs no script and leaves the
    cache alone.  On a platform other than [win32] PowerShell is not even
    started. *)
Theorem without_AfterFX_nothing_runs P host s fileName :
  activeTextEditor host = Some fileName ->
  (process_platform host <> "win32" ->
   command P host s
   = {| completion := Done tt; store := s;
        actions := [ShowWarning
                      (ErrorObject (process_platform host ++ " isn't supported"))] |})
  /\ (forall e,
        process_platform host = "win32" ->
        findAePathWin32_settles (powershell host) = Raise e ->
        command P host s
        = {| completion := Done tt; store := s;
             actions := [LookupAfterFX; ShowWarning e] |}).
Proof.
  intros Hed. split.
  - intros Hp. command_cases; cbn [app]; congruence.
  - intros e Hp Hr. command_cases; cbn [app]; congruence.
Qed.

Lemma without_AfterFX_nothing_runs_witness :
  let host := SampleHost.without_AfterFX "/p/src/a.ts" in
  let e := Inner (Rejection "Please launch After Effects.") in
  (activeTextEditor host = Some "/p/src/a.ts"
   /\ process_platform host = "win32"
   /\ findAePathWin32_settles (powershell host) = Raise e)
  /\ command NodePosix.posix host Sample.listed_at_1
     = {| completion := Done tt; store := Sample.listed_at_1;
          actions := [LookupAfterFX; ShowWarning e] |}.
Proof.
  intros host e.
  assert (H1 : activeTextEditor host = Some "/p/src/a.ts") by reflexivity.
  assert (H2 : process_platform host = "win32") by reflexivity.
  assert (H3 : findAePathWin32_settles (powershell host) = Raise e) by reflexivity.
  split; [auto|].
  exact (proj2 (without_AfterFX_nothing_runs NodePosix.posix host
                  Sample.listed_at_1 "/p/src/a.ts" H1) e H2 H3).
Defined.

(** X21.  With After Effects found, a file whose extension is [.jsxbin]
    (in any case of the letters) is run as it is, and a file whose
    extension is none of [.jsxbin], [.js], [.jsx], [.ts], [.tsx] is left
    alone without a warning; in both cases no configuration is looked for,
    [tsc] is not run and the cache is untouched. *)
Theorem other_files_bypass_the_compiler P host s fileName aePath :
  activeTextEditor host = Some fileName ->
  process_platform host = "win32" ->
  findAePathWin32_settles (powershell host) = Done aePath ->
  (JsText.toLowerCase (path_extname P fileName) = ".jsxbin" ->
   command P host s
   = {| completion := Done tt; store := s;
        actions := [LookupAfterFX; Exec (runScript_command aePath fileName)] |})
  /\ (JsText.toLowerCase (path_extname P fileName)
        ∉ [".jsxbin"; ".js"; ".jsx"; ".ts"; ".tsx"] ->
      command P host s
      = {| completion := Done tt; store := s; actions := [LookupAfterFX] |}).
Proof.
  intros Hed Hp Hae. split.
  - intros Hext. command_cases; cbn [app]; congruence.
  - intros Hext. apply not_elem_of_cons in Hext as [Hne Hext].
    assert (Hb : bool_decide (JsText.toLowerCase (path_extname P fileName)
                              ∈ [".js"; ".jsx"; ".ts"; ".tsx"]) = false)
      by (apply bool_decide_eq_false_2; exact Hext).
    command_cases; cbn [app]; congruence.
Qed.

Lemma other_files_bypass_the_compiler_witness :
  let host := SampleHost.editing "/q/zz.JSXBIN" in
  (activeTextEditor host = Some "/q/zz.JSXBIN"
   /\ process_platform host = "win32"
   /\ findAePathWin32_settles (powershell host) = Done SampleHost.aePath
   /\ JsText.toLowerCase (path_extname NodePosix.posix "/q/zz.JSXBIN") = ".jsxbin")
  /\ command NodePosix.posix host initial
     = {| completion := Done tt; store := initial;
          actions := [LookupAfterFX;
                      Exec (runScript_command SampleHost.aePath "/q/zz.JSXBIN")] |}.
Proof.
  intros host.
  assert (H1 : activeTextEditor host = Some "/q/zz.JSXBIN") by reflexivity.
  assert (H2 : process_platform host = "win32") by reflexivity.
  assert (H3 : findAePathWin32_settles (powershell host) = Done SampleHost.aePath)
    by (vm_compute; reflexivity).
  assert (H4 : JsText.toLowerCase (path_extname NodePosix.posix "/q/zz.JSXBIN")
               = ".jsxbin") by (vm_compute; reflexivity).
  split; [auto|].
  exact (proj1 (other_files_bypass_the_compiler NodePosix.posix host initial
                  "/q/zz.JSXBIN" SampleHost.aePath H1 H2 H3) H4).
Defined.

(** X22.  When no [tsconfig.json] is found for a file with one of the four
    extensions, a file whose name ends in [.js] or [.jsx] is run as it is
    and any other gets the warning that no [tsconfig.json] was found; the
    cache is not consulted. *)
Theorem without_tsconfig P host s fileName aePath :
  activeTextEditor host = Some fileName ->
  process_platform host = "win32" ->
  findAePathWin32_settles (powershell host) = Done aePath ->
  JsText.toLowerCase (path_extname P fileName) ∈ [".js"; ".jsx"; ".ts"; ".tsx"] ->
  (tsconfig_find host (path_dirname P fileName) = NoConfig
   \/ tsconfig_find host (path_dirname P fileName) = ConfigAt "") ->
  command P host s
  = {| completion := Done tt; store := s;
       actions :=
         [LookupAfterFX; FindConfig (path_dirname P fileName);
          if is_js fileName
          then Exec (runScript_command aePath fileName)
          else ShowWarning (ErrorObject "Unable to find tsconfig.json")] |}.
Proof.
  intros Hed Hp Hae Hext Hfind.
  pose proof (ext_not_jsxbin _ Hext) as Hjsxbin.
  assert (Hb : bool_decide (JsText.toLowerCase (path_extname P fileName)
                            ∈ [".js"; ".jsx"; ".ts"; ".tsx"]) = true)
    by (apply bool_decide_eq_true_2; exact Hext).
  destruct Hfind as [Hfind|Hfind]; command_cases; cbn [app]; try congruence.
Qed.

Lemma without_tsconfig_witness :
  let host := SampleHost.editing "/q/zz.js" in
  (activeTextEditor host = Some "/q/zz.js"
   /\ process_platform host = "win32"
   /\ findAePathWin32_settles (powershell host) = Done SampleHost.aePath
   /\ JsText.toLowerCase (path_extname NodePosix.posix "/q/zz.js")
      ∈ [".js"; ".jsx"; ".ts"; ".tsx"]
   /\ (tsconfig_find host (path_dirname NodePosix.posix "/q/zz.js") = NoConfig
       \/ tsconfig_find host (path_dirname NodePosix.posix "/q/zz.js")
          = ConfigAt ""))
  /\ command NodePosix.posix host initial
     = {| completion := Done tt; store := initial;
          actions :=
            [LookupAfterFX; FindConfig (path_dirname NodePosix.posix "/q/zz.js");
             if is_js "/q/zz.js"
             then Exec (runScript_command SampleHost.aePath "/q/zz.js")
             else ShowWarning (ErrorObject "Unable to find tsconfig.json")] |}.
Proof.
  intros host.
  assert (H1 : activeTextEditor host = Some "/q/zz.js") by reflexivity.
  assert (H2 : process_platform host = "win32") by reflexivity.
  assert (H3 : findAePathWin32_settles (powershell host) = Done SampleHost.aePath)
    by (vm_compute; reflexivity).
  assert (H4 : JsText.toLowerCase (path_extname NodePosix.posix "/q/zz.js")
               ∈ [".js"; ".jsx"; ".ts"; ".tsx"])
    by (apply list_elem_of_In; vm_compute; auto).
  assert (H5 : tsconfig_find host (path_dirname NodePosix.posix "/q/zz.js") = NoConfig
               \/ tsconfig_find host (path_dirname NodePosix.posix "/q/zz.js")
                  = ConfigAt "")
    by (left; vm_compute; reflexivity).
  split; [auto 6|].
  exact (without_tsconfig NodePosix.posix host initial "/q/zz.js"
           SampleHost.aePath H1 H2 H3 H4 H5).
Defined.

(** X23.  One run of the command calls [fileIsListed] at most once, for
    the file of the active editor and the configuration found for it, and
    changes the cache in no other way. *)
Theorem cache_consulted_at_most_once P host s :
  store (command P host s) = s
  \/ exists fileName configPath,
       activeTextEditor host = Some fileName
       /\ tsconfig_find host (path_dirname P fileName) = ConfigAt configPath
       /\ store (command P host s)
          = after (fileIsListed P (host_env host) fileName configPath s).
Proof.
  command_cases; try (now left).
  all: right; eexists _, _; split; [reflexivity|]; split; [eassumption|reflexivity].
Qed.

(** X24.  A file that [tsconfig.json] does not list is not compiled: when
    its name ends in [.js] or [.jsx] it is run as it is, otherwise nothing
    is run, and no warning is shown either way. *)
Theorem unlisted_file_is_not_compiled P host s fileName aePath configPath :
  activeTextEditor host = Some fileName ->
  process_platform host = "win32" ->
  findAePathWin32_settles (powershell host) = Done aePath ->
  JsText.toLowerCase (path_extname P fileName) ∈ [".js"; ".jsx"; ".ts"; ".tsx"] ->
  tsconfig_find host (path_dirname P fileName) = ConfigAt configPath ->
  configPath <> "" ->
  outcome (fileIsListed P (host_env host) fileName configPath s) = Return false ->
  command P host s
  = {| completion := Done tt;
       store := after (fileIsListed P (host_env host) fileName configPath s);
       actions :=
         [LookupAfterFX; FindConfig (path_dirname P fileName)]
         ++ map External
              (trace (fileIsListed P (host_env host) fileName configPath s))
         ++ (if is_js fileName
             then [Exec (runScript_command aePath fileName)] else []) |}.
Proof.
  intros Hed Hp Hae Hext Hfind Hne Hout.
  pose proof (ext_not_jsxbin _ Hext) as Hjsxbin.
  assert (Hb : bool_decide (JsText.toLowerCase (path_extname P fileName)
                            ∈ [".js"; ".jsx"; ".ts"; ".tsx"]) = true)
    by (apply bool_decide_eq_true_2; exact Hext).
  assert (Hf : falsy (ConfigAt configPath) = false)
    by (cbn; now apply bool_decide_eq_false_2).
  command_cases; cbn [app config_string] in *; try congruence.
  all: try (rewrite Hout in *; simplify_eq; cbn [negb] in *; congruence).
Qed.

Lemma unlisted_file_is_not_compiled_witness :
  let P := NodePosix.posix in
  let host := SampleHost.editing "/p/src/zz.JS" in
  let r := fileIsListed P (host_env host) "/p/src/zz.JS" "/p/tsconfig.json" initial in
  (activeTextEditor host = Some "/p/src/zz.JS"
   /\ process_platform host = "win32"
   /\ findAePathWin32_settles (powershell host) = Done SampleHost.aePath
   /\ JsText.toLowerCase (path_extname P "/p/src/zz.JS")
      ∈ [".js"; ".jsx"; ".ts"; ".tsx"]
   /\ tsconfig_find host (path_dirname P "/p/src/zz.JS") = ConfigAt "/p/tsconfig.json"
   /\ "/p/tsconfig.json" <> ""
   /\ outcome r = Return false)
  /\ command P host initial
     = {| completion := Done tt; store := after r;
          actions :=
            [LookupAfterFX; FindConfig (path_dirname P "/p/src/zz.JS")]
            ++ map External (trace r)
            ++ (if is_js "/p/src/zz.JS"
                then [Exec (runScript_command SampleHost.aePath "/p/src/zz.JS")]
                else []) |}.
Proof.
  intros P host r.
  assert (H1 : activeTextEditor host = Some "/p/src/zz.JS") by reflexivity.
  assert (H2 : process_platform host = "win32") by reflexivity.
  assert (H3 : findAePathWin32_settles (powershell host) = Done SampleHost.aePath)
    by (vm_compute; reflexivity).
  assert (H4 : JsText.toLowerCase (path_extname P "/p/src/zz.JS")
               ∈ [".js"; ".jsx"; ".ts"; ".tsx"])
    by (apply list_elem_of_In; vm_compute; auto).
  assert (H5 : tsconfig_find host (path_dirname P "/p/src/zz.JS")
               = ConfigAt "/p/tsconfig.json") by (vm_compute; reflexivity).
  assert (H6 : "/p/tsconfig.json" <> "") by discriminate.
  assert (H7 : outcome r = Return false) by (vm_compute; reflexivity).
  split; [auto 10|].
  exact (unlisted_file_is_not_compiled P host initial "/p/src/zz.JS"
           SampleHost.aePath "/p/tsconfig.json" H1 H2 H3 H4 H5 H6 H7).
Defined.

(** X25.  A listed file is compiled in the directory of the configuration.
    When nothing is emitted nothing is run; otherwise exactly one script
    is run, the one [getMostSimilarPath] selects among the emitted files:
    the shortcut taken for a single emitted file agrees with it, and with
    two or more candidates [getMostSimilarPath] does not throw. *)
Theorem listed_file_is_compiled_and_matched
    P host s fileName aePath configPath done :
  activeTextEditor host = Some fileName ->
  process_platform host = "win32" ->
  findAePathWin32_settles (powershell host) = Done aePath ->
  JsText.toLowerCase (path_extname P fileName) ∈ [".js"; ".jsx"; ".ts"; ".tsx"] ->
  tsconfig_find host (path_dirname P fileName) = ConfigAt configPath ->
  configPath <> "" ->
  outcome (fileIsListed P (host_env host) fileName configPath s) = Return true ->
  child_process_exec host "tsc --listEmittedFiles" (path_dirname P configPath)
  = Some done ->
  exists run,
    command P host s
    = {| completion := Done tt;
         store := after (fileIsListed P (host_env host) fileName configPath s);
         actions :=
           [LookupAfterFX; FindConfig (path_dirname P fileName)]
           ++ map External
                (trace (fileIsListed P (host_env host) fileName configPath s))
           ++ Compile (path_dirname P configPath) :: run |}
    /\ match emittedFiles_paths (path_sep host) done with
       | [] => run = []
       | emitted =>
           exists target,
             getMostSimilarPath P fileName emitted = Return target
             /\ run = [Exec (runScript_command aePath target)]
       end.
Proof.
  intros Hed Hp Hae Hext Hfind Hne Hout Hdone.
  pose proof (ext_not_jsxbin _ Hext) as Hjsxbin.
  assert (Hb : bool_decide (JsText.toLowerCase (path_extname P fileName)
                            ∈ [".js"; ".jsx"; ".ts"; ".tsx"]) = true)
    by (apply bool_decide_eq_true_2; exact Hext).
  assert (Hf : falsy (ConfigAt configPath) = false)
    by (cbn; now apply bool_decide_eq_false_2).
  command_cases; cbn [app config_string] in *; try congruence.
  all: try (rewrite Hout in *; simplify_eq; cbn [negb] in *; congruence).
  all: unify_facts.
  - exists []. split; reflexivity.
  - eexists. split; [reflexivity|].
    eexists. split; [apply getMostSimilarPath_single | reflexivity].
  - eexists. split; [reflexivity|].
    eexists. split; [eassumption | reflexivity].
  - exfalso.
    match goal with
    | H : getMostSimilarPath ?P ?p ?ps = Throw _ |- _ =>
        destruct (getMostSimilarPath_returns P p ps) as (t & Ht & _);
          [discriminate | congruence]
    end.
Qed.

Lemma listed_file_is_compiled_and_matched_witness :
  let P := NodePosix.posix in
  let host := SampleHost.editing "/p/src/a.ts" in
  let done := {| stdout := printed "" ["TSFILE: /p/out/b.js"; "TSFILE: /p/out/a.js"];
                 existsSync := SampleHost.on_disk |} in
  let r := fileIsListed P (host_env host) "/p/src/a.ts" "/p/tsconfig.json" initial in
  (activeTextEditor host = Some "/p/src/a.ts"
   /\ process_platform host = "win32"
   /\ findAePathWin32_settles (powershell host) = Done SampleHost.aePath
   /\ JsText.toLowerCase (path_extname P "/p/src/a.ts")
      ∈ [".js"; ".jsx"; ".ts"; ".tsx"]
   /\ tsconfig_find host (path_dirname P "/p/src/a.ts") = ConfigAt "/p/tsconfig.json"
   /\ "/p/tsconfig.json" <> ""
   /\ outcome r = Return true
   /\ child_process_exec host "tsc --listEmittedFiles"
        (path_dirname P "/p/tsconfig.json") = Some done)
  /\ exists run,
       command P host initial
       = {| completion := Done tt; store := after r;
            actions :=
              [LookupAfterFX; FindConfig (path_dirname P "/p/src/a.ts")]
              ++ map External (trace r)
              ++ Compile (path_dirname P "/p/tsconfig.json") :: run |}
       /\ match emittedFiles_paths (path_sep host) done with
          | [] => run = []
          | emitted =>
              exists target,
                getMostSimilarPath P "/p/src/a.ts" emitted = Return target
                /\ run = [Exec (runScript_command SampleHost.aePath target)]
          end.
Proof.
  intros P host done r.
  assert (H1 : activeTextEditor host = Some "/p/src/a.ts") by reflexivity.
  assert (H2 : process_platform host = "win32") by reflexivity.
  assert (H3 : findAePathWin32_settles (powershell host) = Done SampleHost.aePath)
    by (vm_compute; reflexivity).
  assert (H4 : JsText.toLowerCase (path_extname P "/p/src/a.ts")
               ∈ [".js"; ".jsx"; ".ts"; ".tsx"])
    by (apply list_elem_of_In; vm_compute; auto).
  assert (H5 : tsconfig_find host (path_dirname P "/p/src/a.ts")
               = ConfigAt "/p/tsconfig.json") by (vm_compute; reflexivity).
  assert (H6 : "/p/tsconfig.json" <> "") by discriminate.
  assert (H7 : outcome r = Return true) by (vm_compute; reflexivity).
  assert (H8 : child_process_exec host "tsc --listEmittedFiles"
                 (path_dirname P "/p/tsconfig.json") = Some done) by reflexivity.
  split; [auto 10|].
  exact (listed_file_is_compiled_and_matched P host initial "/p/src/a.ts"
           SampleHost.aePath "/p/tsconfig.json" done H1 H2 H3 H4 H5 H6 H7 H8).
Defined.

(** * The extension and the test on the file name *)

Section ExtensionFacts.
Import JsText.
Local Open Scope nat_scope.

Lemma lower_ascii_of_lower c :
  nat_of_ascii (lower c) < 128 -> lower_ascii c = lower c.
Proof.
  destruct c as [b0 b1 b2 b3 b4 b5 b6 b7].
  destruct b0, b1, b2, b3, b4, b5, b6, b7; vm_compute; intros H;
    first [reflexivity | exfalso; repeat (apply le_S_n in H); inversion H].
Qed.

Lemma toLowerCase_chars s :
  JsString.chars (toLowerCase s) = map lower (JsString.chars s).
Proof.
  unfold JsString.chars. induction s as [|c s IH]; cbn; [reflexivity|].
  now rewrite IH.
Qed.

Lemma lower_ascii_of_lowered (l lit : list ascii) :
  map lower l = lit ->
  Forall (fun c => nat_of_ascii c < 128) lit ->
  map lower_ascii l = lit.
Proof.
  intros <- Hall. induction l as [|c l IH]; cbn in *; [reflexivity|].
  apply Forall_cons in Hall as [Hc Hall].
  rewrite lower_ascii_of_lower by exact Hc. now rewrite IH.
Qed.

(** [ends_with_ci] looks for the pattern at the end of the name with its
    capital letters of ASCII lowered. *)
Lemma ends_with_ci_suffix c0 suf0 s :
  ends_with_ci (String c0 suf0) s = true
  <-> JsString.chars (String c0 suf0)
      `suffix_of` map lower_ascii (JsString.chars s).
Proof.
  induction s as [|c s IH].
  - cbn. split; [discriminate|]. intros H. apply suffix_nil_inv in H.
    discriminate H.
  - cbn [ends_with_ci]. rewrite orb_true_iff, IH, bool_decide_eq_true.
    change (JsString.chars (String c s)) with (c :: JsString.chars s).
    change (JsString.chars (String c0 suf0)) with (c0 :: JsString.chars suf0).
    change (list_ascii_of_string (String c s)) with (c :: JsString.chars s).
    change (list_ascii_of_string (String c0 suf0))
      with (c0 :: JsString.chars suf0).
    cbn [map]. split.
    + intros [[_ Heq]|Hs]; [now rewrite Heq | now apply suffix_cons_r].
    + intros H. apply suffix_cons_inv in H as [Heq|Hs]; [left | now right].
      split; [|now rewrite Heq].
      apply (f_equal length) in Heq. cbn in Heq.
      rewrite length_map, !chars_length in Heq. cbn. congruence.
Qed.
End ExtensionFacts.

Lemma lowered_name_chars P fileName stem lit :
  fileName = stem ++ path_extname P fileName ->
  JsText.toLowerCase (path_extname P fileName) = lit ->
  Forall (fun c => (nat_of_ascii c < 128)%nat) (JsString.chars lit) ->
  map JsText.lower_ascii (JsString.chars fileName)
  = (map JsText.lower_ascii (JsString.chars stem) ++ JsString.chars lit)%list.
Proof.
  intros Hname Hlit Hascii. rewrite Hname at 1.
  rewrite chars_app, map_app. f_equal.
  apply lower_ascii_of_lowered; [|exact Hascii].
  now rewrite <- toLowerCase_chars, Hlit.
Qed.

Ltac ascii_chars := repeat constructor; vm_compute; lia.

Ltac refute_suffix H :=
  apply suffix_prefix_reverse in H; rewrite reverse_app in H; cbn in H;
  repeat first [apply prefix_cons_inv_1 in H; discriminate H
               | apply prefix_cons_inv_2 in H].

(** X26.  The test [/\.(jsx|js)$/i] on the file name agrees with the
    extension that admitted the file, whenever the extension found by
    [path.extname] is the end of the name: it holds for [.js] and [.jsx] and
    fails for [.ts] and [.tsx], in any case of the letters. *)
Theorem js_test_follows_extension P fileName stem :
  fileName = stem ++ path_extname P fileName ->
  (JsText.toLowerCase (path_extname P fileName) ∈ [".js"; ".jsx"] ->
   is_js fileName = true)
  /\ (JsText.toLowerCase (path_extname P fileName) ∈ [".ts"; ".tsx"] ->
      is_js fileName = false).
Proof.
  intros Hname. unfold is_js. split; intros Hext.
  - apply orb_true_iff.
    apply elem_of_cons in Hext as [Hext|Hext];
      [right|left; apply list_elem_of_singleton in Hext];
      apply ends_with_ci_suffix;
      rewrite (lowered_name_chars P fileName stem _ Hname Hext) by ascii_chars;
      apply suffix_app_r; reflexivity.
  - apply orb_false_iff.
    apply elem_of_cons in Hext as [Hext|Hext];
      [|apply list_elem_of_singleton in Hext];
      (split; apply not_true_is_false; intros H;
       apply ends_with_ci_suffix in H;
       rewrite (lowered_name_chars P fileName stem _ Hname Hext) in H by ascii_chars;
       refute_suffix H).
Qed.

Lemma js_test_follows_extension_witness :
  let P := NodePosix.posix in
  ("/p/src/a.JSX" = "/p/src/a" ++ path_extname P "/p/src/a.JSX"
   /\ JsText.toLowerCase (path_extname P "/p/src/a.JSX") ∈ [".js"; ".jsx"])
  /\ is_js "/p/src/a.JSX" = true.
Proof.
  intros P.
  assert (H1 : "/p/src/a.JSX" = "/p/src/a" ++ path_extname P "/p/src/a.JSX")
    by (vm_compute; reflexivity).
  assert (H2 : JsText.toLowerCase (path_extname P "/p/src/a.JSX") ∈ [".js"; ".jsx"])
    by (apply list_elem_of_In; vm_compute; auto).
  split; [auto|].
  exact (proj1 (js_test_follows_extension P "/p/src/a.JSX" "/p/src/a" H1) H2).
Defined.
